(** * goconfig: the env-backed configuration loader

    A shallow embedding of the Go packages [goconfig] (the one-method
    [ConfigLoader] interface and [NewConfig]) and [loader/env] (the loader that
    seeds the process environment from dotenv files and binds it onto a typed
    configuration value), followed by the properties of the specification.

    Go values are modelled as follows.
    - A nilable [error] is [option error]; a nilable pointer to [T] is
      [option T].  A Go result pair of a pointer and an error is a Rocq pair
      of two options, so that "both nil" and "both non-nil" are representable
      and have to be ruled out by proof.
    - The process environment is a [gmap string string]; the file system is a
      [gmap string node].  Both live in a [World] that every effectful
      function threads explicitly, together with a log of the calls made into
      the operating system and the two third-party libraries.
    - A functional option, which in Go takes a pointer to [Options] and
      returns an error, is a function from the record before the call to the
      record after the call and the returned error. *)

From Stdlib Require Import Ascii.
From stdpp Require Import gmap strings list fin_maps.

Local Open Scope string_scope.

(** ** Go errors *)

(** The error numbers the model distinguishes. *)
Inductive Errno : Type :=
| ENOENT    (* no such file or directory *)
| EACCES    (* permission denied *)
| EIO       (* input/output error *)
| EISDIR.   (* is a directory *)

(** Error values.  The two sentinels of package [env] are constructors of
    their own: Go compares [errors.New] values by identity, so no error built
    elsewhere is equal to them, whatever its message. *)
Inductive error : Type :=
| ErrEnvFilesNotSpecified
| ErrSourceNotFound
| PathError (op path : string) (errno : Errno)
| ForeignError (pkg msg : string)
| Errorf (msg : string) (wrapped : error).

#[global] Instance Errno_eq_dec : EqDecision Errno.
Proof. solve_decision. Defined.

#[global] Instance error_eq_dec : EqDecision error.
Proof. solve_decision. Defined.

Definition Errno_Error (e : Errno) : string :=
  match e with
  | ENOENT => "no such file or directory"
  | EACCES => "permission denied"
  | EIO => "input/output error"
  | EISDIR => "is a directory"
  end.

(** [err.Error()]: [fmt.Errorf] with a trailing [%w] prints the text before
    the verb followed by the wrapped error's message. *)
Fixpoint Error (e : error) : string :=
  match e with
  | ErrEnvFilesNotSpecified => "env files not specified"
  | ErrSourceNotFound => "source not found"
  | PathError op path errno => op +:+ " " +:+ path +:+ ": " +:+ Errno_Error errno
  | ForeignError _ msg => msg
  | Errorf msg wrapped => msg +:+ Error wrapped
  end.

(** [errors.Unwrap]. *)
Definition errors_Unwrap (e : error) : option error :=
  match e with
  | Errorf _ wrapped => Some wrapped
  | _ => None
  end.

(** [errors.Is(err, target)]: walks the chain of wrapped errors and compares
    each link with [target]. *)
Fixpoint errors_Is (err target : error) : bool :=
  if decide (err = target) then true
  else match err with
       | Errorf _ wrapped => errors_Is wrapped target
       | _ => false
       end.

(** [os.IsNotExist(err)]; [nil] is not a not-exist error. *)
Definition os_IsNotExist (err : option error) : bool :=
  match err with
  | Some (PathError _ _ ENOENT) => true
  | _ => false
  end.

(** ** The world: file system, process environment, call log *)

(** What a path names.  A path missing from the file system map does not
    exist. *)
Inductive node : Type :=
| Regular (content : string)   (* stat succeeds, reading yields [content] *)
| Unreadable (errno : Errno)   (* stat succeeds, opening or reading fails *)
| Unreachable (errno : Errno). (* stat itself fails, and so does opening *)

(** Calls that leave the package. *)
Inductive Call : Type :=
| CallStat (path : string)         (* os.Stat *)
| CallDotenvLoad (path : string)   (* godotenv.Load *)
| CallSetenv (key value : string)  (* os.Setenv, from inside godotenv *)
| CallEnvParse.                    (* env.Parse / env.ParseWithOptions *)

#[global] Instance Call_eq_dec : EqDecision Call.
Proof. solve_decision. Defined.

(** [calls] is the log, most recent call first. *)
Record World : Type := mkWorld {
  fs : gmap string node;
  environ : gmap string string;
  calls : list Call
}.

Definition log (c : Call) (w : World) : World :=
  mkWorld (fs w) (environ w) (c :: calls w).

Definition with_environ (env : gmap string string) (w : World) : World :=
  mkWorld (fs w) env (calls w).

(** The error of [os.Stat(name)] on a file system. *)
Definition stat_error (files : gmap string node) (name : string) : option error :=
  match files !! name with
  | None => Some (PathError "stat" name ENOENT)
  | Some (Unreachable errno) => Some (PathError "stat" name errno)
  | Some (Unreadable _) | Some (Regular _) => None
  end.

(** [os.Stat(name)], keeping only the error. *)
Definition os_Stat (name : string) (w : World) : option error * World :=
  (stat_error (fs w) name, log (CallStat name) w).

(** Opening and reading a whole file, as a dotenv reader does. *)
Definition os_ReadFile (name : string) (files : gmap string node)
  : error + string :=
  match files !! name with
  | None => inl (PathError "open" name ENOENT)
  | Some (Unreachable errno) => inl (PathError "open" name errno)
  | Some (Unreadable errno) => inl (PathError "read" name errno)
  | Some (Regular content) => inr content
  end.

(** ** The third-party libraries *)

(** What the model needs from github.com/joho/godotenv and
    github.com/caarlos0/env/v11, neither of which is part of the repository:
    the dotenv parser, a pure function of the file's text that yields the
    ordered key/value pairs or a message, and the type of the binder's
    options with its zero value. *)
Class Libraries : Type := {
  godotenv_Parse : string -> string + list (string * string);
  caarlos0_Options : Type;
  caarlos0_Options_zero : caarlos0_Options
}.

(** A configuration type [T] that the binder can populate: the zero value
    that [var cfg T] declares, and [env.ParseWithOptions(&cfg, opts)] as a
    function of the options, the environment it reads and the value behind
    the pointer, returning the value left behind the pointer and the error
    message if it fails. *)
Class Bindable `{Libraries} (T : Type) : Type := {
  zero : T;
  caarlos0_ParseWithOptions :
    caarlos0_Options -> gmap string string -> T -> T * option string
}.

(** Modelled from the spec: the write policy of section 4.2, which the
    third-party [godotenv.Load] carries out.  One pair applied with
    insert-if-absent: a key that is present keeps its value, and no write is
    made. *)
Definition setenv_if_absent (kv : string * string) (w : World) : World :=
  match environ w !! kv.1 with
  | Some _ => w
  | None => log (CallSetenv kv.1 kv.2)
                (with_environ (<[kv.1 := kv.2]> (environ w)) w)
  end.

(** Modelled from the spec: the Environment Materializer of section 4.2,
    also inside [godotenv.Load].  The pairs are applied in file order. *)
Fixpoint materialize (pairs : list (string * string)) (w : World) : World :=
  match pairs with
  | [] => w
  | kv :: rest => materialize rest (setenv_if_absent kv w)
  end.

(** Modelled from the spec: [godotenv.Load(filename)] is a third-party
    function whose source is not in the repository.  Following sections 4.2
    and 7 of the specification it reads the file (a file that cannot be read
    is an access error), parses it into an ordered sequence of pairs (a
    malformed file is a parse error and changes nothing) and applies each
    pair to the environment with insert-if-absent. *)
Definition godotenv_Load `{Libraries} (filename : string) (w : World)
  : option error * World :=
  let w1 := log (CallDotenvLoad filename) w in
  match os_ReadFile filename (fs w1) with
  | inl e => (Some e, w1)
  | inr content =>
      match godotenv_Parse content with
      | inl msg => (Some (ForeignError "godotenv" msg), w1)
      | inr pairs => (None, materialize pairs w1)
      end
  end.

(** [env.ParseWithOptions(&cfg, opts)] run in a world: it reads the
    environment and leaves it as it is. *)
Definition env_ParseWithOptions `{Bindable T} (cfg : T) (opts : caarlos0_Options)
    (w : World) : (T * option error) * World :=
  let '(cfg', err) := caarlos0_ParseWithOptions opts (environ w) cfg in
  ((cfg', ForeignError "env" <$> err), log CallEnvParse w).

(** [env.Parse(&cfg)] is [ParseWithOptions] with the zero options. *)
Definition env_Parse `{Bindable T} (cfg : T) (w : World)
  : (T * option error) * World :=
  env_ParseWithOptions cfg caarlos0_Options_zero w.

(** ** Package goconfig *)

Module goconfig.

(** The strategy interface [ConfigLoader[T]]: one method, [Load].  A loader
    of type [L] runs against a state of type [S] (the world for the loader of
    package [env]; whatever an alternative source needs otherwise) and
    returns the Go pair together with the state it leaves. *)
Class ConfigLoader (L T S : Type) : Type :=
  Load : L -> S -> (option T * option error) * S.

(** [NewConfig] creates a configuration of type [T] using the provided
    loader: [return loader.Load()]. *)
Definition NewConfig {L T S : Type} `{ConfigLoader L T S} (loader : L) (s : S)
  : (option T * option error) * S :=
  Load loader s.

End goconfig.

(** ** Package loader/env, current revision *)

Module Env.

Section Package.
Context `{Libraries}.

(** [Options] defines a set of functional options for the loader. *)
Record Options : Type := mkOptions {
  SkipMissingFiles : bool;
  EnvOptions : caarlos0_Options
}.

(** The zero value of [Options], which [&Loader[T]{Files: files}] leaves in
    the field it does not name. *)
Definition Options_zero : Options := mkOptions false caarlos0_Options_zero.

(** [Option] defines a functional option: it receives a pointer to the
    record, may assign through it, and returns an error or nil. *)
Definition Option : Type := Options -> Options * option error.

(** [WithSkipMissingFiles] configures the loader to skip missing files. *)
Definition WithSkipMissingFiles : Option :=
  fun opts => (mkOptions true (EnvOptions opts), None).

(** [WithEnvOptions] passes options through to the underlying parser. *)
Definition WithEnvOptions (envOptions : caarlos0_Options) : Option :=
  fun opts => (mkOptions (SkipMissingFiles opts) envOptions, None).

(** [Loader[T]]; the field [Options] of the Go struct is [Opts] here, the
    name [Options] being taken by its type. *)
Record Loader (T : Type) : Type := mkLoader {
  Files : list string;
  Opts : Options
}.
#[global] Arguments mkLoader {T} _ _.
#[global] Arguments Files {T} _.
#[global] Arguments Opts {T} _.

(** The loop of [NewLoader] over [opts], run on [loader.Options]: the first
    option that returns an error ends it with the wrapped error. *)
Fixpoint NewLoader_options (opts : list Option) (o : Options)
  : error + Options :=
  match opts with
  | [] => inr o
  | opt :: rest =>
      match opt o with
      | (_, Some err) =>
          inl (Errorf "error creating loader: invalid option: " err)
      | (o', None) => NewLoader_options rest o'
      end
  end.

(** [NewLoader] creates a new environment-based config loader.  It takes no
    world: nothing is read or written at construction. *)
Definition NewLoader (T : Type) (files : list string) (opts : list Option)
  : option (Loader T) * option error :=
  if decide (length files = 0) then (None, Some ErrEnvFilesNotSpecified)
  else match NewLoader_options opts Options_zero with
       | inl err => (None, Some err)
       | inr o => (Some (mkLoader files o), None)
       end.

(** [loadEnvFile] loads environment variables from a dotenv file. *)
Definition loadEnvFile {T : Type} (l : Loader T) (filename : string) (w : World)
  : option error * World :=
  let '(err, w1) := os_Stat filename w in
  if os_IsNotExist err then (Some ErrSourceNotFound, w1)
  else match godotenv_Load filename w1 with
       | (Some err, w2) => (Some (Errorf "failed to load env file: " err), w2)
       | (None, w2) => (None, w2)
       end.

(** The loop of [Load] over [l.Files]. *)
Fixpoint Load_files {T : Type} (l : Loader T) (files : list string) (w : World)
  : option error * World :=
  match files with
  | [] => (None, w)
  | file :: rest =>
      match loadEnvFile l file w with
      | (Some err, w1) =>
          if SkipMissingFiles (Opts l) && errors_Is err ErrSourceNotFound
          then Load_files l rest w1
          else (Some (Errorf ("error loading env file " +:+ file +:+ ": ") err), w1)
      | (None, w1) => Load_files l rest w1
      end
  end.

(** [Load] loads the configuration from environment variables and files. *)
Definition Load {T : Type} `{!Bindable T} (l : Loader T) (w : World)
  : (option T * option error) * World :=
  match Load_files l (Files l) w with
  | (Some err, w1) => ((None, Some err), w1)
  | (None, w1) =>
      match env_ParseWithOptions zero (EnvOptions (Opts l)) w1 with
      | ((_, Some err), w2) =>
          ((None, Some (Errorf "error parsing env variables into struct: " err)), w2)
      | ((cfg, None), w2) => ((Some cfg, None), w2)
      end
  end.

(** [*Loader[T]] implements [goconfig.ConfigLoader[T]]. *)
#[global] Instance Loader_ConfigLoader {T : Type} `{!Bindable T}
  : goconfig.ConfigLoader (Loader T) T World := Load.

End Package.

End Env.

(** ** Package loader/env, earlier revisions

    The repository also holds two earlier revisions of the package, whose
    options assign to the loader itself through a pointer cast and cannot
    fail.  [EnvRev1] is loader/env/env.go; [EnvRev0] is the revision before
    it, which tests for the missing file inside [Load]. *)

(** The type argument that the option functions see: [Loader[any]]. *)
Inductive any : Type := Any (A : Type) (a : A).

Module EnvRev1.

Section Package.
Context `{Libraries}.

Record Loader (T : Type) : Type := mkLoader {
  envFiles : list string;
  skipMissingFiles : bool
}.
#[global] Arguments mkLoader {T} _ _.
#[global] Arguments envFiles {T} _.
#[global] Arguments skipMissingFiles {T} _.

(** [LoaderOption] defines a function that configures a [Loader]. *)
Definition LoaderOption : Type := Loader any -> Loader any.

(** [WithSkipMissingFiles]: [l.skipMissingFiles = true]. *)
Definition WithSkipMissingFiles : LoaderOption :=
  fun l => mkLoader (envFiles l) true.

(** The conversion through [unsafe.Pointer]: [Loader[A]] and [Loader[B]] have
    the same field layout, so the pointer reaches the same two fields. *)
Definition retype {A B : Type} (l : Loader A) : Loader B :=
  mkLoader (envFiles l) (skipMissingFiles l).

(** The loop of [NewLoader] over [opts]: each option writes through the
    retyped pointer to the loader under construction. *)
Fixpoint NewLoader_options {T : Type} (opts : list LoaderOption) (loader : Loader T)
  : Loader T :=
  match opts with
  | [] => loader
  | opt :: rest => NewLoader_options rest (retype (opt (retype loader)))
  end.

Definition NewLoader (T : Type) (envFiles : list string) (opts : list LoaderOption)
  : option (Loader T) * option error :=
  if decide (length envFiles = 0) then (None, Some ErrEnvFilesNotSpecified)
  else (Some (NewLoader_options opts (mkLoader envFiles false)), None).

Definition loadEnvFile {T : Type} (l : Loader T) (filename : string) (w : World)
  : option error * World :=
  let '(err, w1) := os_Stat filename w in
  if os_IsNotExist err then (Some ErrSourceNotFound, w1)
  else match godotenv_Load filename w1 with
       | (Some err, w2) => (Some (Errorf "failed to load env file: " err), w2)
       | (None, w2) => (None, w2)
       end.

Fixpoint Load_files {T : Type} (l : Loader T) (files : list string) (w : World)
  : option error * World :=
  match files with
  | [] => (None, w)
  | file :: rest =>
      match loadEnvFile l file w with
      | (Some err, w1) =>
          if skipMissingFiles l && errors_Is err ErrSourceNotFound
          then Load_files l rest w1
          else (Some (Errorf ("error loading env file " +:+ file +:+ ": ") err), w1)
      | (None, w1) => Load_files l rest w1
      end
  end.

Definition Load {T : Type} `{!Bindable T} (l : Loader T) (w : World)
  : (option T * option error) * World :=
  match Load_files l (envFiles l) w with
  | (Some err, w1) => ((None, Some err), w1)
  | (None, w1) =>
      match env_Parse zero w1 with
      | ((_, Some err), w2) =>
          ((None, Some (Errorf "error parsing env variables into struct: " err)), w2)
      | ((cfg, None), w2) => ((Some cfg, None), w2)
      end
  end.

#[global] Instance Loader_ConfigLoader {T : Type} `{!Bindable T}
  : goconfig.ConfigLoader (Loader T) T World | 10 := Load.

End Package.

End EnvRev1.

Module EnvRev0.

Section Package.
Context `{Libraries}.

(** The loader record, the option type and [NewLoader] are those of
    [EnvRev1]. *)
Definition Loader : Type -> Type := EnvRev1.Loader.
Definition NewLoader := EnvRev1.NewLoader.

(** The loop of [Load] over [l.envFiles]: the existence test is made here,
    and the error of [os.Stat] itself is what gets wrapped. *)
Fixpoint Load_files {T : Type} (l : Loader T) (files : list string) (w : World)
  : option error * World :=
  match files with
  | [] => (None, w)
  | file :: rest =>
      let '(err, w1) := os_Stat file w in
      if os_IsNotExist err then
        if EnvRev1.skipMissingFiles l then Load_files l rest w1
        else ((Errorf ("error loading env file " +:+ file +:+ ": ")) <$> err, w1)
      else match godotenv_Load file w1 with
           | (Some err, w2) =>
               (Some (Errorf ("error loading env file " +:+ file +:+ ": ") err), w2)
           | (None, w2) => Load_files l rest w2
           end
  end.

Definition Load {T : Type} `{!Bindable T} (l : Loader T) (w : World)
  : (option T * option error) * World :=
  match Load_files l (EnvRev1.envFiles l) w with
  | (Some err, w1) => ((None, Some err), w1)
  | (None, w1) =>
      match env_Parse zero w1 with
      | ((_, Some err), w2) =>
          ((None, Some (Errorf "error parsing env vars: " err)), w2)
      | ((cfg, None), w2) => ((Some cfg, None), w2)
      end
  end.

End Package.

End EnvRev0.

(** ** A concrete instance: the configuration type of the tests

    [SampleConfig] is the struct of env_test.go.  The theorems below hold for
    every parser and every binder; to run the loader on concrete files this
    module supplies a line-oriented reader for the dotenv subset that the
    tests use (blank lines, [#] comments, [KEY=VALUE]) and a binder for the
    two tagged fields, with the [Prefix] field of the binder's options. *)

Module Sample.

Record SampleConfig : Type := mkSampleConfig {
  AppName : string;   (* env:"APP_NAME" *)
  Port : Z            (* env:"PORT" *)
}.

Definition is_space (a : ascii) : bool :=
  bool_decide (a = " "%char) || bool_decide (a = "009"%char)
  || bool_decide (a = "013"%char).

Definition is_empty (s : string) : bool :=
  match s with EmptyString => true | String _ _ => false end.

Fixpoint lines_from (cur s : string) : list string :=
  match s with
  | EmptyString => [cur]
  | String a rest =>
      if bool_decide (a = "010"%char) then cur :: lines_from "" rest
      else lines_from (cur +:+ String a "") rest
  end.

Fixpoint ltrim (s : string) : string :=
  match s with
  | EmptyString => ""
  | String a rest => if is_space a then ltrim rest else s
  end.

Fixpoint rtrim (s : string) : string :=
  match s with
  | EmptyString => ""
  | String a rest =>
      let rest' := rtrim rest in
      if is_space a && is_empty rest' then "" else String a rest'
  end.

Definition trim (s : string) : string := rtrim (ltrim s).

(** Splits at the first [=]. *)
Fixpoint cut_assign (s : string) : option (string * string) :=
  match s with
  | EmptyString => None
  | String a rest =>
      if bool_decide (a = "="%char) then Some ("", rest)
      else match cut_assign rest with
           | Some (k, v) => Some (String a k, v)
           | None => None
           end
  end.

Definition parse_line (line : string) : string + option (string * string) :=
  let t := trim line in
  match t with
  | EmptyString => inr None
  | String a _ =>
      if bool_decide (a = "#"%char) then inr None
      else match cut_assign t with
           | Some (k, v) =>
               if is_empty (trim k) then inl "zero length string"
               else inr (Some (trim k, trim v))
           | None => inl ("unexpected character in variable name near " +:+ t)
           end
  end.

Fixpoint parse_lines (ls : list string) : string + list (string * string) :=
  match ls with
  | [] => inr []
  | l :: rest =>
      match parse_line l, parse_lines rest with
      | inl msg, _ => inl msg
      | inr _, inl msg => inl msg
      | inr None, inr ps => inr ps
      | inr (Some kv), inr ps => inr (kv :: ps)
      end
  end.

Definition parse (content : string) : string + list (string * string) :=
  parse_lines (lines_from "" content).

(** The binder's options: the one field of [env.Options] the instance
    interprets. *)
Record Options : Type := mkOptions { Prefix : string }.

Definition digit (a : ascii) : option Z :=
  let n := Z.of_nat (nat_of_ascii a) in
  if bool_decide (48 ≤ n ≤ 57)%Z then Some (n - 48)%Z else None.

Fixpoint atoi_from (acc : Z) (s : string) : option Z :=
  match s with
  | EmptyString => Some acc
  | String a rest =>
      match digit a with
      | Some d => atoi_from (10 * acc + d)%Z rest
      | None => None
      end
  end.

Definition atoi (s : string) : option Z :=
  match s with
  | EmptyString => None
  | String a rest =>
      if bool_decide (a = "-"%char)
      then (if is_empty rest then None else Z.opp <$> atoi_from 0 rest)
      else atoi_from 0 s
  end.

(** Binding is all-or-nothing only in its error: as in the library, fields set
    before a failure stay set behind the pointer. *)
Definition bind (opts : Options) (env : gmap string string) (cfg : SampleConfig)
  : SampleConfig * option string :=
  let cfg1 :=
    match env !! (Prefix opts +:+ "APP_NAME") with
    | Some v => mkSampleConfig v (Port cfg)
    | None => cfg
    end in
  match env !! (Prefix opts +:+ "PORT") with
  | Some v =>
      match atoi v with
      | Some n => (mkSampleConfig (AppName cfg1) n, None)
      | None =>
          (cfg1, Some ("env: parse error on field Port of type int: " +:+ v))
      end
  | None => (cfg1, None)
  end.

Definition libraries : Libraries :=
  {| godotenv_Parse := parse;
     caarlos0_Options := Options;
     caarlos0_Options_zero := mkOptions "" |}.

Definition bindable : @Bindable libraries SampleConfig :=
  @Build_Bindable libraries SampleConfig (mkSampleConfig "" 0) bind.

(** A world with the given files and environment and an empty call log. *)
Definition world (files : list (string * node)) (env : list (string * string))
  : World :=
  mkWorld (list_to_map files) (list_to_map env) [].

(** [strings.HasPrefix] and [strings.Contains]. *)
Fixpoint HasPrefix (s prefix : string) : bool :=
  match prefix, s with
  | EmptyString, _ => true
  | String a p, String b r => bool_decide (a = b) && HasPrefix r p
  | String _ _, EmptyString => false
  end.

Fixpoint Contains (s substr : string) : bool :=
  HasPrefix s substr ||
  match s with
  | EmptyString => false
  | String _ rest => Contains rest substr
  end.

(** The files of the test table of env_test.go. *)
Definition valid_env : string := "
				APP_NAME=testapp
				PORT=8080
			".

Definition skippy_env : string := "
				APP_NAME=skippy
				PORT=3000
			".

(** An option of the caller's own that refuses to apply. *)
Definition refuse : @Env.Option libraries :=
  fun opts => (opts, Some (ForeignError "app" "option refused")).

End Sample.

(** ** Vocabulary of the properties *)

(** The value of the first pair with key [key], the one insert-if-absent
    keeps. *)
Fixpoint first_value (key : string) (pairs : list (string * string))
  : option string :=
  match pairs with
  | [] => None
  | (k, v) :: rest => if decide (k = key) then Some v else first_value key rest
  end.

(** The source [path] does not exist: [os.Stat] reports a not-exist error. *)
Definition not_exist (files : gmap string node) (path : string) : Prop :=
  os_IsNotExist (stat_error files path) = true.

(** The source [path] exists as far as [os.Stat] can tell, or [os.Stat] fails
    otherwise, and it cannot be read: [e] is the access error. *)
Definition access_error (files : gmap string node) (path : string) (e : error)
  : Prop :=
  os_IsNotExist (stat_error files path) = false /\
  os_ReadFile path files = inl e.

(** The source [path] is a readable, well-formed file that defines
    [key=value]. *)
Definition file_defines `{Libraries} (files : gmap string node)
    (path key value : string) : Prop :=
  exists content pairs,
    files !! path = Some (Regular content) /\
    godotenv_Parse content = inr pairs /\
    first_value key pairs = Some value.

(** What the loader finds at a source path: nothing, a file it cannot load,
    or the pairs of a well-formed file. *)
Inductive resolution : Type :=
| Missing
| Failing (e : error)
| Providing (pairs : list (string * string)).

Definition resolve `{Libraries} (files : gmap string node) (path : string)
  : resolution :=
  if os_IsNotExist (stat_error files path) then Missing
  else match os_ReadFile path files with
       | inl e => Failing e
       | inr content =>
           match godotenv_Parse content with
           | inl msg => Failing (ForeignError "godotenv" msg)
           | inr pairs => Providing pairs
           end
       end.

(** The loader of the current revision that holds what a loader of the
    earlier revisions holds: the same files, the same skip flag, and the
    zero options for the binder. *)
Definition upgrade `{Libraries} {T : Type} (l : EnvRev1.Loader T) : Env.Loader T :=
  Env.mkLoader (EnvRev1.envFiles l)
    (Env.mkOptions (EnvRev1.skipMissingFiles l) caarlos0_Options_zero).

(** Two worlds with the same files and the same environment; their call logs
    may differ. *)
Definition same_state (w w' : World) : Prop :=
  fs w = fs w' /\ environ w = environ w'.

(** The options the package provides. *)
Definition builtin `{Libraries} (opt : Env.Option) : Prop :=
  opt = Env.WithSkipMissingFiles \/
  exists envOptions, opt = Env.WithEnvOptions envOptions.

(** A logged call that the sources [paths] account for: a stat or a dotenv
    load of one of them, or a write to the environment.  A call to the
    binder is never accounted for by a source. *)
Definition call_about (paths : list string) (c : Call) : Prop :=
  match c with
  | CallStat p | CallDotenvLoad p => p ∈ paths
  | CallSetenv _ _ => True
  | CallEnvParse => False
  end.

(** An option that returns nil whatever record it is given. *)
Definition never_fails `{Libraries} (opt : Env.Option) : Prop :=
  forall o, (opt o).2 = None.

(** ** The test file's helper, and further vocabulary *)

(** [os.Unsetenv(key)]: the key is removed; unsetting never fails. *)
Definition os_Unsetenv (key : string) (w : World) : option error * World :=
  (None, with_environ (delete key (environ w)) w).

(** [clearEnvironmentVariables(keys...)] of env_test.go: each key is unset
    in turn and the error is dropped. *)
Fixpoint clearEnvironmentVariables (keys : list string) (w : World) : World :=
  match keys with
  | [] => w
  | k :: rest => clearEnvironmentVariables rest (os_Unsetenv k w).2
  end.

(** An option as a caller writes it with the two constructors the package
    exports: [env.WithSkipMissingFiles()] or [env.WithEnvOptions(e)]. *)
Inductive OptionCall `{Libraries} : Type :=
| CallWithSkipMissingFiles
| CallWithEnvOptions (envOptions : caarlos0_Options).

Definition option_of `{Libraries} (c : OptionCall) : Env.Option :=
  match c with
  | CallWithSkipMissingFiles => Env.WithSkipMissingFiles
  | CallWithEnvOptions envOptions => Env.WithEnvOptions envOptions
  end.

Definition is_skip_call `{Libraries} (c : OptionCall) : bool :=
  match c with
  | CallWithSkipMissingFiles => true
  | CallWithEnvOptions _ => false
  end.

(** The argument of the last [WithEnvOptions] among the calls, or [default]
    when there is none. *)
Fixpoint last_EnvOptions `{Libraries} (cs : list OptionCall)
    (default : caarlos0_Options) : caarlos0_Options :=
  match cs with
  | [] => default
  | CallWithSkipMissingFiles :: rest => last_EnvOptions rest default
  | CallWithEnvOptions envOptions :: rest => last_EnvOptions rest envOptions
  end.

(** A source that the loop passes: a well-formed file, or a missing one when
    missing files are skipped. *)
Definition passes `{Libraries} (skip : bool) (files : gmap string node)
    (path : string) : Prop :=
  match resolve files path with
  | Providing _ => True
  | Missing => skip = true
  | Failing _ => False
  end.

(** The pairs of the well-formed files among [paths], in listed order. *)
Fixpoint provided `{Libraries} (files : gmap string node) (paths : list string)
  : list (string * string) :=
  match paths with
  | [] => []
  | path :: rest =>
      match resolve files path with
      | Providing pairs => (pairs ++ provided files rest)%list
      | _ => provided files rest
      end
  end.

(** The paths of the [os.Stat] calls and of the [godotenv.Load] calls of a
    log, in the order of the log. *)
Definition stat_paths (cs : list Call) : list string :=
  omap (fun c => match c with CallStat p => Some p | _ => None end) cs.

Definition dotenv_paths (cs : list Call) : list string :=
  omap (fun c => match c with CallDotenvLoad p => Some p | _ => None end) cs.

(** * Properties *)

(** ** Errors *)

Lemma errors_Is_unfold (err target : error) :
  errors_Is err target =
  bool_decide (err = target) ||
  match errors_Unwrap err with
  | Some wrapped => errors_Is wrapped target
  | None => false
  end.
Proof.
  destruct err; simpl; destruct (decide _) as [Heq|Hne];
    by rewrite ?(bool_decide_eq_true_2 _ Heq), ?(bool_decide_eq_false_2 _ Hne).
Qed.

Lemma errors_Is_refl (e : error) : errors_Is e e = true.
Proof. destruct e; simpl; try done; case_decide; congruence. Qed.

Lemma errors_Is_Errorf (msg : string) (e target : error) :
  errors_Is e target = true -> errors_Is (Errorf msg e) target = true.
Proof. intros He. simpl. case_decide; done. Qed.

Lemma errors_Is_PathError (msg op path : string) (errno : Errno) :
  errors_Is (Errorf msg (PathError op path errno)) ErrSourceNotFound = false.
Proof. reflexivity. Qed.

Lemma errors_Is_ForeignError (msg pkg text : string) :
  errors_Is (Errorf msg (ForeignError pkg text)) ErrSourceNotFound = false.
Proof. reflexivity. Qed.

(** ** The environment materializer *)

Section Materializer.

Implicit Types (w : World) (kv : string * string) (k v : string).
Implicit Types (pairs : list (string * string)).

Lemma setenv_if_absent_fs kv w : fs (setenv_if_absent kv w) = fs w.
Proof. unfold setenv_if_absent. by destruct (environ w !! kv.1). Qed.

Lemma materialize_fs pairs w : fs (materialize pairs w) = fs w.
Proof.
  revert w. induction pairs as [|kv rest IH]; intros w; simpl; [done|].
  by rewrite IH, setenv_if_absent_fs.
Qed.

(** Insert-if-absent: a key that is set keeps its value. *)
Lemma setenv_if_absent_keeps kv w k v :
  environ w !! k = Some v -> environ (setenv_if_absent kv w) !! k = Some v.
Proof.
  intros Hk. unfold setenv_if_absent.
  destruct (environ w !! kv.1) eqn:Hkv; [done|]. simpl.
  rewrite lookup_insert_ne; [done|]. intros Heq. rewrite Heq in Hkv. congruence.
Qed.

Lemma materialize_keeps pairs w k v :
  environ w !! k = Some v -> environ (materialize pairs w) !! k = Some v.
Proof.
  revert w. induction pairs as [|kv rest IH]; intros w Hk; simpl; [done|].
  by apply IH, setenv_if_absent_keeps.
Qed.

Lemma setenv_if_absent_sets kv w :
  is_Some (environ (setenv_if_absent kv w) !! kv.1).
Proof.
  unfold setenv_if_absent. destruct (environ w !! kv.1) eqn:Hkv.
  - rewrite Hkv. eauto.
  - simpl. rewrite lookup_insert_eq. eauto.
Qed.

(** After the pairs are applied every one of their keys is set. *)
Lemma materialize_sets pairs w :
  Forall (fun kv => is_Some (environ (materialize pairs w) !! kv.1)) pairs.
Proof.
  revert w. induction pairs as [|kv rest IH]; intros w; simpl; constructor.
  - destruct (setenv_if_absent_sets kv w) as [v Hv].
    exists v. by apply materialize_keeps.
  - apply IH.
Qed.

(** A key that is unset receives the value of its first pair. *)
Lemma materialize_first_value pairs w k v :
  environ w !! k = None -> first_value k pairs = Some v ->
  environ (materialize pairs w) !! k = Some v.
Proof.
  revert w. induction pairs as [|[k' v'] rest IH]; intros w Hk Hv; simpl in *.
  - discriminate.
  - case_decide as Hkk.
    + subst k'. injection Hv as ->. apply materialize_keeps.
      unfold setenv_if_absent. simpl. rewrite Hk. simpl.
      apply lookup_insert_eq.
    + apply IH; [|done]. unfold setenv_if_absent. simpl.
      destruct (environ w !! k'); [done|]. simpl.
      by rewrite lookup_insert_ne.
Qed.

(** Applying pairs whose keys are all set changes nothing, not even the
    log. *)
Lemma materialize_covered pairs w :
  Forall (fun kv => is_Some (environ w !! kv.1)) pairs ->
  materialize pairs w = w.
Proof.
  induction 1 as [|kv rest [v Hv] _ IH]; simpl; [done|].
  unfold setenv_if_absent. rewrite Hv. apply IH.
Qed.

(** When every pair of a key carries the same value, that value is the
    first, whichever pair is looked at. *)
Lemma first_value_unique pairs k v :
  (k, v) ∈ pairs -> (forall v', (k, v') ∈ pairs -> v' = v) ->
  first_value k pairs = Some v.
Proof.
  induction pairs as [|[k' v'] rest IH]; intros Hin Hall; simpl.
  - by apply elem_of_nil in Hin.
  - case_decide as Hk.
    + subst k'. f_equal. apply Hall. apply elem_of_cons. by left.
    + apply IH.
      * apply elem_of_cons in Hin as [[= <- <-]|Hin]; [done|exact Hin].
      * intros v'' Hin'. apply Hall. apply elem_of_cons. by right.
Qed.

(** The log only grows, and by writes to the environment only. *)
Lemma materialize_calls pairs w :
  exists new : list Call, calls (materialize pairs w) = (new ++ calls w)%list /\
    Forall (fun c => exists k v, c = CallSetenv k v) new.
Proof.
  revert w. induction pairs as [|kv rest IH]; intros w; simpl.
  - exists []. by split.
  - destruct (IH (setenv_if_absent kv w)) as (new & Hnew & Hall).
    unfold setenv_if_absent in *. destruct (environ w !! kv.1).
    + eauto.
    + exists (new ++ [CallSetenv kv.1 kv.2])%list. split.
      * rewrite Hnew. simpl. by rewrite <- app_assoc.
      * apply Forall_app. split; [done|]. repeat constructor. eauto.
Qed.

(** The log is write-only: what is applied depends on the environment. *)
Lemma materialize_same_state pairs w w' :
  same_state w w' -> same_state (materialize pairs w) (materialize pairs w').
Proof.
  revert w w'. induction pairs as [|kv rest IH]; intros w w' [Hfs Henv]; [done|].
  simpl. apply IH. unfold setenv_if_absent. rewrite <- Henv.
  destruct (environ w !! kv.1); [done|]. split; simpl; congruence.
Qed.

End Materializer.

(** ** One source *)

Section Source.
Context `{Libraries}.

Implicit Types (w : World) (files : gmap string node) (path k v : string).

Lemma resolve_Missing files path :
  not_exist files path <-> resolve files path = Missing.
Proof.
  unfold not_exist, resolve. destruct (os_IsNotExist _); [done|].
  split; [done|]. destruct (os_ReadFile _ _); [done|].
  by destruct (godotenv_Parse _).
Qed.

Lemma resolve_access_error files path e :
  access_error files path e -> resolve files path = Failing e.
Proof. intros [Hstat Hread]. unfold resolve. by rewrite Hstat, Hread. Qed.

Lemma resolve_file_defines files path k v :
  file_defines files path k v ->
  exists pairs, resolve files path = Providing pairs /\
                first_value k pairs = Some v.
Proof.
  intros (content & pairs & Hfile & Hparse & Hfirst). exists pairs.
  split; [|done]. unfold resolve, stat_error, os_ReadFile.
  rewrite Hfile. simpl. by rewrite Hparse.
Qed.

(** An error of the file system or of the parser never is the sentinel. *)
Lemma resolve_Failing_Is files path e msg :
  resolve files path = Failing e ->
  errors_Is (Errorf msg e) ErrSourceNotFound = false.
Proof.
  unfold resolve, os_ReadFile. destruct (os_IsNotExist _); [done|].
  destruct (files !! path) as [[content|errno|errno]|].
  - destruct (godotenv_Parse content); [|done]. by intros [= <-].
  - by intros [= <-].
  - by intros [= <-].
  - by intros [= <-].
Qed.

(** Loading one file overwrites no key that is set. *)
Lemma godotenv_Load_keeps path w k v :
  environ w !! k = Some v -> environ (godotenv_Load path w).2 !! k = Some v.
Proof.
  intros Hk. unfold godotenv_Load.
  destruct (os_ReadFile _ _) as [e|content]; [done|].
  destruct (godotenv_Parse content) as [msg|pairs]; [done|].
  by apply materialize_keeps.
Qed.

(** [loadEnvFile] by what it finds at the path. *)
Lemma loadEnvFile_resolve {T} (l : Env.Loader T) path w :
  Env.loadEnvFile l path w =
  match resolve (fs w) path with
  | Missing => (Some ErrSourceNotFound, log (CallStat path) w)
  | Failing e =>
      (Some (Errorf "failed to load env file: " e),
       log (CallDotenvLoad path) (log (CallStat path) w))
  | Providing pairs =>
      (None, materialize pairs (log (CallDotenvLoad path) (log (CallStat path) w)))
  end.
Proof.
  unfold Env.loadEnvFile, resolve, os_Stat, godotenv_Load. simpl.
  destruct (os_IsNotExist _); [done|].
  destruct (os_ReadFile path (fs w)) as [e|content]; [done|].
  by destruct (godotenv_Parse content).
Qed.

Lemma loadEnvFile_fs {T} (l : Env.Loader T) path w :
  fs (Env.loadEnvFile l path w).2 = fs w.
Proof.
  rewrite loadEnvFile_resolve. destruct (resolve _ _); simpl; [done..|].
  by rewrite materialize_fs.
Qed.

Lemma loadEnvFile_keeps {T} (l : Env.Loader T) path w k v :
  environ w !! k = Some v ->
  environ (Env.loadEnvFile l path w).2 !! k = Some v.
Proof.
  intros Hk. rewrite loadEnvFile_resolve.
  destruct (resolve _ _); simpl; [done..|]. by apply materialize_keeps.
Qed.

(** A source that fails leaves the environment as it found it. *)
Lemma loadEnvFile_error_environ {T} (l : Env.Loader T) path w e w' :
  Env.loadEnvFile l path w = (Some e, w') -> environ w' = environ w.
Proof.
  rewrite loadEnvFile_resolve. destruct (resolve _ _); by intros [= <- <-].
Qed.

Lemma loadEnvFile_calls {T} (l : Env.Loader T) path w :
  exists new : list Call,
    calls (Env.loadEnvFile l path w).2 = (new ++ calls w)%list /\
    Forall (call_about [path]) new.
Proof.
  rewrite loadEnvFile_resolve. destruct (resolve _ _) as [|e|pairs]; simpl.
  - exists [CallStat path]. split; [done|].
    repeat constructor.
  - exists [CallDotenvLoad path; CallStat path]. split; [done|].
    repeat constructor.
  - destruct (materialize_calls pairs
                (log (CallDotenvLoad path) (log (CallStat path) w)))
      as (new & -> & Hnew).
    exists (new ++ [CallDotenvLoad path; CallStat path])%list. split.
    + simpl. by rewrite <- app_assoc.
    + apply Forall_app. split.
      * eapply Forall_impl; [exact Hnew|]. by intros c (k & v & ->).
      * repeat constructor.
Qed.

End Source.

(** ** The loop over the sources *)

Section Sources.
Context `{Libraries}.

Implicit Types (w : World) (path k v : string) (paths : list string).

(** What the error of a source is wrapped in. *)
Local Abbreviation wrap path := (Errorf ("error loading env file " +:+ path +:+ ": ")).

(** One turn of the loop, by what it finds at the path. *)
Lemma Load_files_cons {T} (l : Env.Loader T) path rest w :
  Env.Load_files l (path :: rest) w =
  match resolve (fs w) path with
  | Missing =>
      if Env.SkipMissingFiles (Env.Opts l)
      then Env.Load_files l rest (log (CallStat path) w)
      else (Some (wrap path ErrSourceNotFound), log (CallStat path) w)
  | Failing e =>
      (Some (wrap path (Errorf "failed to load env file: " e)),
       log (CallDotenvLoad path) (log (CallStat path) w))
  | Providing pairs =>
      Env.Load_files l rest
        (materialize pairs (log (CallDotenvLoad path) (log (CallStat path) w)))
  end.
Proof.
  cbn [Env.Load_files]. rewrite loadEnvFile_resolve.
  destruct (resolve (fs w) path) as [|e|pairs] eqn:Hres; [| |done].
  - by rewrite errors_Is_refl, andb_true_r.
  - by rewrite (resolve_Failing_Is _ _ _ _ Hres), andb_false_r.
Qed.

(** The loop reads the loader's options only. *)
Lemma Load_files_Opts {T U} (l : Env.Loader T) (l' : Env.Loader U) paths w :
  Env.Opts l = Env.Opts l' -> Env.Load_files l paths w = Env.Load_files l' paths w.
Proof.
  intros Hopts. revert w. induction paths as [|path rest IH]; intros w; [done|].
  rewrite !Load_files_cons, <- Hopts.
  destruct (resolve _ _); [|done|apply IH].
  destruct (Env.SkipMissingFiles _); [apply IH|done].
Qed.

(** The sources are taken in listed order: a list in two parts is the first
    part, then, unless that failed, the second. *)
Lemma Load_files_app {T} (l : Env.Loader T) pre post w :
  Env.Load_files l (pre ++ post)%list w =
  match Env.Load_files l pre w with
  | (Some err, w1) => (Some err, w1)
  | (None, w1) => Env.Load_files l post w1
  end.
Proof.
  revert w. induction pre as [|path pre IH]; intros w; [done|].
  rewrite <- app_comm_cons, !Load_files_cons.
  destruct (resolve _ _); [|done|apply IH].
  destruct (Env.SkipMissingFiles _); [apply IH|done].
Qed.

Lemma Load_files_fs {T} (l : Env.Loader T) paths w :
  fs (Env.Load_files l paths w).2 = fs w.
Proof.
  revert w. induction paths as [|path rest IH]; intros w; [done|].
  rewrite Load_files_cons. destruct (resolve _ _).
  - destruct (Env.SkipMissingFiles _); [by rewrite IH|done].
  - done.
  - by rewrite IH, materialize_fs.
Qed.

(** No source overwrites a key that is set. *)
Lemma Load_files_keeps {T} (l : Env.Loader T) paths w k v :
  environ w !! k = Some v ->
  environ (Env.Load_files l paths w).2 !! k = Some v.
Proof.
  revert w. induction paths as [|path rest IH]; intros w Hk; [done|].
  rewrite Load_files_cons. destruct (resolve _ _).
  - destruct (Env.SkipMissingFiles _); [by apply IH|done].
  - done.
  - by apply IH, materialize_keeps.
Qed.

(** The loop calls out for the listed sources only, and never the binder. *)
Lemma Load_files_calls {T} (l : Env.Loader T) paths w :
  exists new : list Call,
    calls (Env.Load_files l paths w).2 = (new ++ calls w)%list /\
    Forall (call_about paths) new.
Proof.
  revert w. induction paths as [|path rest IH]; intros w.
  - exists []. by split.
  - assert (Hweak : forall ps new, Forall (call_about ps) new ->
              Forall (call_about (path :: ps)) new).
    { intros ps new Hall. eapply Forall_impl; [exact Hall|].
      intros [p|p| |] Hc; simpl in *; try done; apply elem_of_cons; by right. }
    assert (Hhere : Forall (call_about (path :: rest))
                      [CallDotenvLoad path; CallStat path]).
    { repeat constructor. }
    rewrite Load_files_cons. destruct (resolve _ _) as [|e|pairs].
    + destruct (Env.SkipMissingFiles _).
      * destruct (IH (log (CallStat path) w)) as (new & -> & Hnew).
        exists (new ++ [CallStat path])%list. split.
        { simpl. by rewrite <- app_assoc. }
        apply Forall_app. split; [by apply Hweak|].
        repeat constructor.
      * exists [CallStat path]. split; [done|]. repeat constructor.
    + by exists [CallDotenvLoad path; CallStat path].
    + destruct (IH (materialize pairs
                      (log (CallDotenvLoad path) (log (CallStat path) w))))
        as (new & -> & Hnew).
      destruct (materialize_calls pairs
                  (log (CallDotenvLoad path) (log (CallStat path) w)))
        as (sets & -> & Hsets).
      exists (new ++ sets ++ [CallDotenvLoad path; CallStat path])%list. split.
      { simpl. by rewrite <- !app_assoc. }
      apply Forall_app. split; [by apply Hweak|].
      apply Forall_app. split; [|done].
      eapply Forall_impl; [exact Hsets|]. by intros c (k & v & ->).
Qed.

(** Worlds that differ in their logs only are loaded alike. *)
Lemma Load_files_same_state {T} (l : Env.Loader T) paths w w' :
  same_state w w' ->
  (Env.Load_files l paths w).1 = (Env.Load_files l paths w').1 /\
  same_state (Env.Load_files l paths w).2 (Env.Load_files l paths w').2.
Proof.
  revert w w'. induction paths as [|path rest IH]; intros w w' Hsame; [done|].
  rewrite !Load_files_cons. destruct Hsame as [Hfs Henv]. rewrite <- Hfs.
  destruct (resolve (fs w) path) as [|e|pairs].
  - destruct (Env.SkipMissingFiles _); [by apply IH|done].
  - done.
  - by apply IH, materialize_same_state.
Qed.

End Sources.

(** ** Load *)

Section Loading.
Context `{Libraries} {T : Type} `{!Bindable T}.

Implicit Types (l : Env.Loader T) (w : World) (path k v : string).
Implicit Types (paths : list string).

(** [Load] with the call to the binder spelled out. *)
Lemma Load_unfold l w :
  Env.Load l w =
  match Env.Load_files l (Env.Files l) w with
  | (Some err, w1) => ((None, Some err), w1)
  | (None, w1) =>
      match caarlos0_ParseWithOptions
              (Env.EnvOptions (Env.Opts l)) (environ w1) zero with
      | (_, Some msg) =>
          ((None, Some (Errorf "error parsing env variables into struct: "
                          (ForeignError "env" msg))),
           log CallEnvParse w1)
      | (cfg, None) => ((Some cfg, None), log CallEnvParse w1)
      end
  end.
Proof.
  unfold Env.Load, env_ParseWithOptions.
  destruct (Env.Load_files _ _ _) as [[err|] w1]; [done|].
  by destruct (caarlos0_ParseWithOptions _ _ _) as [cfg [msg|]].
Qed.

(** The binder reads the environment; only the sources write to it. *)
Lemma Load_environ l w :
  environ (Env.Load l w).2 = environ (Env.Load_files l (Env.Files l) w).2.
Proof.
  rewrite Load_unfold. destruct (Env.Load_files _ _ _) as [[err|] w1]; [done|].
  by destruct (caarlos0_ParseWithOptions _ _ _) as [cfg [msg|]].
Qed.

Lemma Load_fs l w : fs (Env.Load l w).2 = fs w.
Proof.
  rewrite <- (Load_files_fs l (Env.Files l) w), Load_unfold.
  destruct (Env.Load_files _ _ _) as [[err|] w1]; [done|].
  by destruct (caarlos0_ParseWithOptions _ _ _) as [cfg [msg|]].
Qed.

(** No call to [Load] overwrites a key that is set, whether it was in the
    ambient environment or put there by an earlier call. *)
Lemma Load_keeps l w k v :
  environ w !! k = Some v -> environ (Env.Load l w).2 !! k = Some v.
Proof. rewrite Load_environ. apply Load_files_keeps. Qed.

(** The sources are taken in listed order: once a first part of the list has
    been loaded or skipped, [Load] proceeds as a [Load] of the rest does. *)
Lemma Load_app l pre post w w1 :
  Env.Files l = (pre ++ post)%list ->
  Env.Load_files l pre w = (None, w1) ->
  Env.Load l w = Env.Load (Env.mkLoader post (Env.Opts l)) w1.
Proof.
  intros Hfiles Hpre. rewrite !Load_unfold, Hfiles, Load_files_app, Hpre. simpl.
  by rewrite (Load_files_Opts l (@Env.mkLoader _ T post (Env.Opts l))).
Qed.

Lemma Load_same_state l w w' :
  same_state w w' ->
  (Env.Load l w).1 = (Env.Load l w').1 /\
  same_state (Env.Load l w).2 (Env.Load l w').2.
Proof.
  intros Hsame. rewrite !Load_unfold.
  destruct (Load_files_same_state l (Env.Files l) w w' Hsame) as [Herr Hsame'].
  destruct (Env.Load_files l (Env.Files l) w) as [err w1].
  destruct (Env.Load_files l (Env.Files l) w') as [err' w1'].
  simpl in *. subst err'. destruct err as [err|]; [done|].
  destruct Hsame' as [Hfs Henv]. rewrite <- Henv.
  by destruct (caarlos0_ParseWithOptions _ _ _) as [cfg [msg|]].
Qed.

(** Running the loop again in a world with the same files where every key
    that the first run left set is set: the same sources are skipped and
    loaded, the same error (or none) comes back, and the environment stays
    as it is. *)
Lemma Load_files_covered l paths w w2 :
  fs w2 = fs w ->
  (forall k, is_Some (environ (Env.Load_files l paths w).2 !! k) ->
             is_Some (environ w2 !! k)) ->
  exists w2', Env.Load_files l paths w2 = ((Env.Load_files l paths w).1, w2') /\
              environ w2' = environ w2.
Proof.
  revert w w2. induction paths as [|path rest IH]; intros w w2 Hfs Hcov.
  - by exists w2.
  - rewrite !Load_files_cons in *. rewrite Hfs.
    destruct (resolve (fs w) path) as [|e|pairs].
    + destruct (Env.SkipMissingFiles _).
      * destruct (IH (log (CallStat path) w) (log (CallStat path) w2))
          as (w2' & -> & Henv); [done|done|]. by exists w2'.
      * by eexists.
    + by eexists.
    + set (wl := log (CallDotenvLoad path) (log (CallStat path) w)) in *.
      set (wl2 := log (CallDotenvLoad path) (log (CallStat path) w2)).
      assert (Hsame : materialize pairs wl2 = wl2).
      { apply materialize_covered.
        eapply Forall_impl; [apply (materialize_sets pairs wl)|].
        intros kv [v Hv]. apply Hcov. exists v. by apply Load_files_keeps. }
      rewrite Hsame.
      destruct (IH (materialize pairs wl) wl2) as (w2' & -> & Henv).
      * by rewrite materialize_fs.
      * done.
      * by exists w2'.
Qed.

End Loading.

(** ** The properties of the specification *)

Section Claims.
Context `{Libraries} {T : Type} `{!Bindable T}.

Implicit Types (l : Env.Loader T) (w : World) (path k v : string).
Implicit Types (pre post : list string).

Local Abbreviation wrap path := (Errorf ("error loading env file " +:+ path +:+ ": ")).

(** C1, amended (priority of the first-listed source).  Applying one file
    overwrites no key that is set.  Hence, for every list of sources and
    every starting environment, [Load] leaves every key that is set before
    the call with the value it has -- a key of the ambient environment, or
    one that an earlier call to [Load] set -- and every key that is set once
    a first part of the list has been applied keeps its value through the
    rest of the list.  In particular, when the source listed first defines
    [k=v1] and the source listed second defines [k=v2], the environment
    after [Load] holds [k=v1] if [k] was not set when [Load] began, and the
    value [k] already had if it was. *)
Theorem C1_first_listed_wins l w :
  (forall path k v, environ w !! k = Some v ->
                    environ (godotenv_Load path w).2 !! k = Some v) /\
  (forall k v, environ w !! k = Some v ->
               environ (Env.Load l w).2 !! k = Some v) /\
  (forall pre post w1 k v,
     Env.Files l = (pre ++ post)%list ->
     Env.Load_files l pre w = (None, w1) ->
     environ w1 !! k = Some v ->
     environ (Env.Load l w).2 !! k = Some v) /\
  (forall F1 F2 rest k v1 v2,
     Env.Files l = F1 :: F2 :: rest ->
     file_defines (fs w) F1 k v1 ->
     file_defines (fs w) F2 k v2 ->
     environ (Env.Load l w).2 !! k =
     match environ w !! k with
     | Some v0 => Some v0
     | None => Some v1
     end).
Proof.
  split; [|split; [|split]].
  - intros path k v. apply godotenv_Load_keeps.
  - intros k v. apply Load_keeps.
  - intros pre post w1 k v Hfiles Hpre Hk.
    rewrite Load_environ, Hfiles, Load_files_app, Hpre.
    by apply Load_files_keeps.
  - intros F1 F2 rest k v1 v2 Hfiles HF1 _.
    destruct (environ w !! k) as [v0|] eqn:Hk.
    + by apply Load_keeps.
    + rewrite Load_environ, Hfiles, Load_files_cons.
      destruct (resolve_file_defines _ _ _ _ HF1) as (pairs & -> & Hfirst).
      apply Load_files_keeps. by apply materialize_first_value.
Qed.

(** C2, amended (a missing source without the skip option).  With
    [SkipMissingFiles] false, a listed source that does not exist makes
    [Load] fail with a nil configuration value; and when the sources listed
    before it were all loaded without error, the error is [ErrSourceNotFound]
    wrapped with the path of that source, and nothing but the existence test
    was done for it. *)
Theorem C2_missing_source_fails l w pre path post :
  Env.SkipMissingFiles (Env.Opts l) = false ->
  Env.Files l = (pre ++ path :: post)%list ->
  not_exist (fs w) path ->
  (exists err, (Env.Load l w).1 = (None, Some err)) /\
  (forall w1, Env.Load_files l pre w = (None, w1) ->
     Env.Load l w =
     ((None, Some (wrap path ErrSourceNotFound)), log (CallStat path) w1)).
Proof.
  intros Hskip Hfiles Hmiss.
  assert (Hstep : forall w1, Env.Load_files l pre w = (None, w1) ->
            Env.Load_files l (Env.Files l) w =
            (Some (wrap path ErrSourceNotFound), log (CallStat path) w1)).
  { intros w1 Hpre. rewrite Hfiles, Load_files_app, Hpre, Load_files_cons.
    replace w1 with (Env.Load_files l pre w).2 at 1 by by rewrite Hpre.
    rewrite Load_files_fs.
    apply resolve_Missing in Hmiss. by rewrite Hmiss, Hskip. }
  split.
  - rewrite Load_unfold.
    destruct (Env.Load_files l pre w) as [[err|] w1] eqn:Hpre.
    + rewrite Hfiles, Load_files_app, Hpre. eauto.
    + rewrite (Hstep w1 eq_refl). eauto.
  - intros w1 Hpre. by rewrite Load_unfold, (Hstep w1 Hpre).
Qed.

(** C3 (only the not-found condition is suppressible).  With
    [SkipMissingFiles] set, a listed source that does not exist is as good
    as not listed: [Load] returns what it returns without it and leaves the
    same environment; when [Load] reaches it, it does nothing for it but the
    existence test, and goes on as a [Load] of the sources listed after it
    does.  A source that cannot be read, its existence test passing or
    failing in another way than not-found, makes [Load] fail with a nil
    value whatever the option; when [Load] reaches it, the error is that
    access error, wrapped with the path. *)
Theorem C3_only_not_found_is_skipped l w pre path post :
  Env.Files l = (pre ++ path :: post)%list ->
  (Env.SkipMissingFiles (Env.Opts l) = true -> not_exist (fs w) path ->
   let l' : Env.Loader T := Env.mkLoader (pre ++ post)%list (Env.Opts l) in
   ((Env.Load l w).1 = (Env.Load l' w).1 /\
    same_state (Env.Load l w).2 (Env.Load l' w).2) /\
   (forall w1, Env.Load_files l pre w = (None, w1) ->
      Env.Load l w =
      Env.Load (Env.mkLoader post (Env.Opts l)) (log (CallStat path) w1))) /\
  (forall e, access_error (fs w) path e ->
     (exists err, (Env.Load l w).1 = (None, Some err)) /\
     (forall w1, Env.Load_files l pre w = (None, w1) ->
        Env.Load l w =
        ((None, Some (wrap path (Errorf "failed to load env file: " e))),
         log (CallDotenvLoad path) (log (CallStat path) w1)))).
Proof.
  intros Hfiles.
  assert (Hfs : forall w1, Env.Load_files l pre w = (None, w1) -> fs w1 = fs w).
  { intros w1 Hpre. rewrite <- (Load_files_fs l pre w). by rewrite Hpre. }
  split.
  - intros Hskip Hmiss l'. apply resolve_Missing in Hmiss.
    assert (Hreached : forall w1, Env.Load_files l pre w = (None, w1) ->
              Env.Load l w =
              Env.Load (Env.mkLoader post (Env.Opts l)) (log (CallStat path) w1)).
    { intros w1 Hpre.
      rewrite !Load_unfold, Hfiles, Load_files_app, Hpre, Load_files_cons.
      rewrite (Hfs w1 Hpre), Hmiss, Hskip. simpl.
      by rewrite (Load_files_Opts l (@Env.mkLoader _ T post (Env.Opts l))). }
    split; [|exact Hreached].
    assert (Hpre' : Env.Load_files l' pre w = Env.Load_files l pre w)
      by by apply Load_files_Opts.
    destruct (Env.Load_files l pre w) as [[err|] w1] eqn:Hpre.
    + rewrite !Load_unfold, Hfiles. simpl.
      by rewrite !Load_files_app, Hpre', Hpre.
    + rewrite (Hreached w1 eq_refl), (Load_app l' pre post w w1 eq_refl Hpre').
      by apply Load_same_state.
  - intros e Hacc. apply resolve_access_error in Hacc.
    assert (Hstep : forall w1, Env.Load_files l pre w = (None, w1) ->
              Env.Load_files l (Env.Files l) w =
              (Some (wrap path (Errorf "failed to load env file: " e)),
               log (CallDotenvLoad path) (log (CallStat path) w1))).
    { intros w1 Hpre. rewrite Hfiles, Load_files_app, Hpre, Load_files_cons.
      by rewrite (Hfs w1 Hpre), Hacc. }
    split.
    + rewrite Load_unfold.
      destruct (Env.Load_files l pre w) as [[err|] w1] eqn:Hpre.
      * rewrite Hfiles, Load_files_app, Hpre. eauto.
      * rewrite (Hstep w1 eq_refl). eauto.
    + intros w1 Hpre. by rewrite Load_unfold, (Hstep w1 Hpre).
Qed.

(** The options are applied in the order given: a list in two parts is the
    first part, then, unless one of its options failed, the second part on
    the record the first part left. *)
Lemma NewLoader_options_app (opts1 opts2 : list Env.Option) (o : Env.Options) :
  Env.NewLoader_options (opts1 ++ opts2)%list o =
  match Env.NewLoader_options opts1 o with
  | inl err => inl err
  | inr o' => Env.NewLoader_options opts2 o'
  end.
Proof.
  revert o. induction opts1 as [|opt rest IH]; intros o; simpl; [done|].
  destruct (opt o) as [o' [err|]]; [done|apply IH].
Qed.

Lemma NewLoader_options_never_fails (opts : list Env.Option) (o : Env.Options) :
  Forall never_fails opts -> exists o', Env.NewLoader_options opts o = inr o'.
Proof.
  intros Hall. revert o. induction Hall as [|opt rest Hopt _ IH]; intros o; simpl.
  - by exists o.
  - specialize (Hopt o). destruct (opt o) as [o' [err|]]; [done|apply IH].
Qed.

Lemma WithSkipMissingFiles_never_fails : never_fails Env.WithSkipMissingFiles.
Proof. done. Qed.

Lemma WithEnvOptions_never_fails (envOptions : caarlos0_Options) :
  never_fails (Env.WithEnvOptions envOptions).
Proof. done. Qed.

Lemma builtin_never_fails (opt : Env.Option) : builtin opt -> never_fails opt.
Proof. by intros [->|[envOptions ->]]. Qed.

(** The skip flag of a loader built with the package's options: it is set
    as soon as [WithSkipMissingFiles] is among them, and no option of the
    package clears it. *)
Lemma NewLoader_options_builtin (opts : list Env.Option) (o : Env.Options) :
  Forall builtin opts ->
  exists o', Env.NewLoader_options opts o = inr o' /\
    (Env.SkipMissingFiles o = true -> Env.SkipMissingFiles o' = true) /\
    (Env.WithSkipMissingFiles ∈ opts -> Env.SkipMissingFiles o' = true).
Proof.
  intros Hall. revert o.
  induction Hall as [|opt rest Hopt _ IH]; intros o; simpl.
  - exists o. split; [done|]. split; [done|]. by intros ?%elem_of_nil.
  - destruct Hopt as [->|[envOptions ->]]; simpl.
    + destruct (IH (Env.mkOptions true (Env.EnvOptions o)))
        as (o' & -> & Hkeep & _).
      exists o'. split; [done|]. split; intros _; by apply Hkeep.
    + destruct (IH (Env.mkOptions (Env.SkipMissingFiles o) envOptions))
        as (o' & -> & Hkeep & Hin).
      exists o'. split; [done|]. split; [exact Hkeep|].
      intros [Heq|Hrest]%elem_of_cons; [|by apply Hin].
      assert (Hflag : Env.SkipMissingFiles (Env.WithSkipMissingFiles o).1 =
                      Env.SkipMissingFiles (Env.WithEnvOptions envOptions o).1)
        by by rewrite Heq.
      simpl in Hflag. symmetry in Hflag. by apply Hkeep.
Qed.

(** Without [WithSkipMissingFiles] the flag keeps its default. *)
Lemma NewLoader_options_default (opts : list Env.Option) (o : Env.Options) :
  Forall (fun opt => exists envOptions, opt = Env.WithEnvOptions envOptions) opts ->
  exists o', Env.NewLoader_options opts o = inr o' /\
             Env.SkipMissingFiles o' = Env.SkipMissingFiles o.
Proof.
  intros Hall. revert o.
  induction Hall as [|opt rest [envOptions ->] _ IH]; intros o; simpl.
  - by exists o.
  - apply (IH (Env.mkOptions (Env.SkipMissingFiles o) envOptions)).
Qed.

Lemma NewLoader_nonempty (files : list string) (opts : list Env.Option) :
  files <> [] ->
  Env.NewLoader T files opts =
  match Env.NewLoader_options opts Env.Options_zero with
  | inl err => (None, Some err)
  | inr o => (Some (Env.mkLoader files o), None)
  end.
Proof.
  intros Hne. unfold Env.NewLoader. case_decide as Hlen; [|done].
  by destruct files.
Qed.

(** C4, amended (the source list must not be empty).  With an empty source
    list [NewLoader] returns a nil loader and [ErrEnvFilesNotSpecified],
    whatever the options.  With a non-empty source list and options that all
    return nil it returns a loader that holds the list and the record the
    options left.  [NewLoader] takes no world and returns none: it performs
    no input or output. *)
Theorem C4_empty_source_list_rejected :
  (forall opts : list Env.Option,
     Env.NewLoader T [] opts = (None, Some ErrEnvFilesNotSpecified)) /\
  (forall (files : list string) (opts : list Env.Option) (o : Env.Options),
     files <> [] ->
     Env.NewLoader_options opts Env.Options_zero = inr o ->
     Env.NewLoader T files opts = (Some (Env.mkLoader files o), None)) /\
  (forall (files : list string) (opts : list Env.Option),
     files <> [] -> Forall never_fails opts ->
     exists o, Env.NewLoader T files opts = (Some (Env.mkLoader files o), None)).
Proof.
  split; [done|]. split.
  - intros files opts o Hne Hopts. by rewrite NewLoader_nonempty, Hopts.
  - intros files opts Hne Hall.
    destruct (NewLoader_options_never_fails opts Env.Options_zero Hall)
      as [o Hopts].
    exists o. by rewrite NewLoader_nonempty, Hopts.
Qed.

(** C5 (the first failure aborts the load).  When the sources before [path]
    were loaded or skipped and [path] fails with an error that is not
    skipped, [Load] returns a nil value and that error wrapped with the
    path, in the world that the failing source left: the environment is the
    one the earlier sources produced, and every call logged since [Load]
    began is accounted for by the sources up to [path] -- none is made for
    a later source, and the binder is not called. *)
Theorem C5_first_failure_aborts l w pre path post w1 e w2 :
  Env.Files l = (pre ++ path :: post)%list ->
  Env.Load_files l pre w = (None, w1) ->
  Env.loadEnvFile l path w1 = (Some e, w2) ->
  Env.SkipMissingFiles (Env.Opts l) && errors_Is e ErrSourceNotFound = false ->
  Env.Load l w = ((None, Some (wrap path e)), w2) /\
  environ w2 = environ w1 /\
  exists new : list Call,
    calls w2 = (new ++ calls w)%list /\
    Forall (call_about (pre ++ [path])) new.
Proof.
  intros Hfiles Hpre Hload Hskip.
  assert (Hupto : forall rest, Env.Load_files l (pre ++ path :: rest) w =
                               (Some (wrap path e), w2)).
  { intros rest. rewrite Load_files_app, Hpre. cbn [Env.Load_files].
    by rewrite Hload, Hskip. }
  split; [|split].
  - unfold Env.Load. by rewrite Hfiles, Hupto.
  - by apply loadEnvFile_error_environ in Hload.
  - destruct (Load_files_calls l (pre ++ [path]) w) as (new & Hcalls & Hnew).
    rewrite Hupto in Hcalls. by exists new.
Qed.

(** C6 (a value or an error, never both, never neither).  Every call to
    [Load] returns either a nil value with a non-nil error, or a non-nil
    value with a nil error; in the second case every source was loaded or
    skipped and the value is the one the binder produced, without error,
    from the zero value and the environment the sources left. *)
Theorem C6_value_xor_error l w :
  (exists err, (Env.Load l w).1 = (None, Some err)) \/
  (exists cfg w1,
     (Env.Load l w).1 = (Some cfg, None) /\
     Env.Load_files l (Env.Files l) w = (None, w1) /\
     caarlos0_ParseWithOptions (Env.EnvOptions (Env.Opts l)) (environ w1) zero
     = (cfg, None)).
Proof.
  rewrite Load_unfold.
  destruct (Env.Load_files l (Env.Files l) w) as [[err|] w1]; [by eauto|].
  destruct (caarlos0_ParseWithOptions _ _ _) as [cfg [msg|]] eqn:Hbind.
  - left. eauto.
  - right. by exists cfg, w1.
Qed.

(** C7 (loading again).  A second [Load] on the same loader, run in the
    world the first one left (same files, the environment untouched in
    between), returns the same configuration value and the same error as
    the first, and leaves the environment as the first left it. *)
Theorem C7_reload_is_idempotent l w :
  (Env.Load l (Env.Load l w).2).1 = (Env.Load l w).1 /\
  environ (Env.Load l (Env.Load l w).2).2 = environ (Env.Load l w).2.
Proof.
  assert (Hagain : forall w', fs w' = fs (Env.Load_files l (Env.Files l) w).2 ->
            environ w' = environ (Env.Load_files l (Env.Files l) w).2 ->
            exists w2, Env.Load_files l (Env.Files l) w' =
                       ((Env.Load_files l (Env.Files l) w).1, w2) /\
                       environ w2 = environ w').
  { intros w' Hfs Henv. apply Load_files_covered.
    - by rewrite Hfs, Load_files_fs.
    - intros k. by rewrite Henv. }
  rewrite (Load_unfold l w).
  destruct (Env.Load_files l (Env.Files l) w) as [[err|] w1] eqn:Hfirst.
  - destruct (Hagain w1) as (w2 & Hsecond & Henv); [done..|]. simpl in *.
    by rewrite Load_unfold, Hsecond.
  - assert (Hbind : exists r,
              caarlos0_ParseWithOptions
                (Env.EnvOptions (Env.Opts l)) (environ w1) zero = r) by eauto.
    destruct Hbind as [[cfg [msg|]] Hbind]; rewrite Hbind; simpl.
    + destruct (Hagain (log CallEnvParse w1)) as (w2 & Hsecond & Henv);
        [done..|]. simpl in *.
      by rewrite Load_unfold, Hsecond, Henv, Hbind.
    + destruct (Hagain (log CallEnvParse w1)) as (w2 & Hsecond & Henv);
        [done..|]. simpl in *.
      by rewrite Load_unfold, Hsecond, Henv, Hbind.
Qed.

(** C8 (options in order, the later one wins).  Each option is applied to
    the record that the options before it left.  So of two [WithEnvOptions]
    the value of the second is the one stored in the loader, also with
    another option between them, and the fields another option set stay. *)
Theorem C8_later_option_wins (files : list string) (pre : list Env.Option)
    (o : Env.Options) (a b : caarlos0_Options) :
  files <> [] ->
  Env.NewLoader_options pre Env.Options_zero = inr o ->
  Env.NewLoader T files (pre ++ [Env.WithEnvOptions a; Env.WithEnvOptions b])%list
  = (Some (Env.mkLoader files (Env.mkOptions (Env.SkipMissingFiles o) b)), None) /\
  Env.NewLoader T files
    (pre ++ [Env.WithEnvOptions a; Env.WithSkipMissingFiles; Env.WithEnvOptions b])%list
  = (Some (Env.mkLoader files (Env.mkOptions true b)), None) /\
  (forall (opt : Env.Option) (o' : Env.Options),
     opt o = (o', None) ->
     Env.NewLoader T files (pre ++ [opt])%list
     = (Some (Env.mkLoader files o'), None)).
Proof.
  intros Hne Hpre. repeat split.
  - by rewrite NewLoader_nonempty, NewLoader_options_app, Hpre.
  - by rewrite NewLoader_nonempty, NewLoader_options_app, Hpre.
  - intros opt o' Hopt.
    rewrite NewLoader_nonempty, NewLoader_options_app, Hpre by done.
    simpl. by rewrite Hopt.
Qed.

(** C9 (the generic entry point).  For every implementation of the
    one-method interface, [NewConfig] returns the pair that the loader's
    [Load] returns, and leaves the state that it leaves; for the loader of
    package [env] that is [Env.Load]. *)
Theorem C9_NewConfig_returns_Load :
  (forall (L R S : Type) (impl : goconfig.ConfigLoader L R S) (loader : L) (s : S),
     goconfig.NewConfig loader s = goconfig.Load loader s) /\
  (forall l w, goconfig.NewConfig l w = Env.Load l w).
Proof. by split. Qed.

(** C10 (an option that fails).  With a non-empty source list, when the
    options before [opt] all returned nil and [opt] returns an error,
    [NewLoader] returns a nil loader and that error wrapped, whatever the
    earlier options assigned and whatever options follow. *)
Theorem C10_failing_option_aborts (files : list string)
    (pre post : list Env.Option) (opt : Env.Option) (o o' : Env.Options)
    (err : error) :
  files <> [] ->
  Env.NewLoader_options pre Env.Options_zero = inr o ->
  opt o = (o', Some err) ->
  Env.NewLoader T files (pre ++ opt :: post)%list =
  (None, Some (Errorf "error creating loader: invalid option: " err)).
Proof.
  intros Hne Hpre Hopt.
  rewrite NewLoader_nonempty, NewLoader_options_app, Hpre by done.
  simpl. by rewrite Hopt.
Qed.

End Claims.

(** ** The earlier revisions

    The loader of loader/env/env.go is the current loader with the zero
    binder options; the revision before it differs in the errors it wraps
    and in nothing else. *)

Section Revisions.
Context `{Libraries} {T : Type} `{!Bindable T}.

Implicit Types (l : EnvRev1.Loader T) (w : World) (path : string).
Implicit Types (paths : list string).

Local Abbreviation wrap path := (Errorf ("error loading env file " +:+ path +:+ ": ")).

Lemma Rev1_Load_files l paths w :
  EnvRev1.Load_files l paths w = Env.Load_files (upgrade l) paths w.
Proof.
  revert w. induction paths as [|path rest IH]; intros w; [done|].
  cbn [EnvRev1.Load_files Env.Load_files].
  change (EnvRev1.loadEnvFile l path w) with (Env.loadEnvFile (upgrade l) path w).
  destruct (Env.loadEnvFile (upgrade l) path w) as [[err|] w1]; [|apply IH].
  simpl. destruct (_ && _); [apply IH|done].
Qed.

(** X11 (the earlier [Load] inside the current one).  The [Load] of
    loader/env/env.go does, and returns, exactly what the current [Load]
    does with the same files, the same skip flag and the zero options for
    the binder. *)
Lemma Rev1_Load l w : EnvRev1.Load l w = Env.Load (upgrade l) w.
Proof. unfold EnvRev1.Load, Env.Load. by rewrite Rev1_Load_files. Qed.

(** In the earlier revisions an option cannot fail, so a non-empty source
    list always yields a loader. *)
Lemma Rev1_NewLoader_nonempty (files : list string)
    (opts : list EnvRev1.LoaderOption) :
  files <> [] -> exists l, EnvRev1.NewLoader T files opts = (Some l, None).
Proof.
  intros Hne. unfold EnvRev1.NewLoader. case_decide as Hlen.
  - by destruct files.
  - eauto.
Qed.

Lemma Rev1_NewLoader_empty (opts : list EnvRev1.LoaderOption) :
  EnvRev1.NewLoader T [] opts = (None, Some ErrEnvFilesNotSpecified).
Proof. done. Qed.

Lemma Rev0_Load_files_cons l path rest w :
  EnvRev0.Load_files l (path :: rest) w =
  match resolve (fs w) path with
  | Missing =>
      if EnvRev1.skipMissingFiles l
      then EnvRev0.Load_files l rest (log (CallStat path) w)
      else (Some (wrap path (PathError "stat" path ENOENT)), log (CallStat path) w)
  | Failing e =>
      (Some (wrap path e), log (CallDotenvLoad path) (log (CallStat path) w))
  | Providing pairs =>
      EnvRev0.Load_files l rest
        (materialize pairs (log (CallDotenvLoad path) (log (CallStat path) w)))
  end.
Proof.
  cbn [EnvRev0.Load_files]. unfold os_Stat, godotenv_Load, resolve. simpl.
  destruct (os_IsNotExist (stat_error (fs w) path)) eqn:Hstat.
  - destruct (EnvRev1.skipMissingFiles l); [done|].
    unfold stat_error in *.
    by destruct (fs w !! path) as [[content|errno|[]]|].
  - destruct (os_ReadFile path (fs w)) as [e|content]; [done|].
    by destruct (godotenv_Parse content).
Qed.

(** X13 (a missing source in the first revision).  In the revision that
    tests for the file inside [Load], the error of a missing source that
    [Load] reaches without the skip flag is the not-exist error of
    [os.Stat] itself, wrapped with the path; nothing but the existence test
    was done for that source. *)
Lemma Rev0_missing_source l w pre path post w1 :
  EnvRev1.skipMissingFiles l = false ->
  EnvRev1.envFiles l = (pre ++ path :: post)%list ->
  EnvRev0.Load_files l pre w = (None, w1) ->
  not_exist (fs w1) path ->
  EnvRev0.Load l w =
  ((None, Some (wrap path (PathError "stat" path ENOENT))), log (CallStat path) w1) /\
  os_IsNotExist (Some (PathError "stat" path ENOENT)) = true.
Proof.
  intros Hskip Hfiles Hpre Hmiss. split; [|done].
  assert (Happ : forall paths w0 w0',
            EnvRev0.Load_files l paths w0 = (None, w0') ->
            forall rest, EnvRev0.Load_files l (paths ++ rest)%list w0 =
                         EnvRev0.Load_files l rest w0').
  { induction paths as [|p paths IH]; intros w0 w0' Hp rest.
    - by injection Hp as ->.
    - rewrite <- app_comm_cons, Rev0_Load_files_cons in *.
      destruct (resolve (fs w0) p); [|done|by apply IH].
      destruct (EnvRev1.skipMissingFiles l); [by apply IH|done]. }
  unfold EnvRev0.Load.
  rewrite Hfiles, (Happ pre w w1 Hpre), Rev0_Load_files_cons.
  apply resolve_Missing in Hmiss. by rewrite Hmiss, Hskip.
Qed.

(** Both revisions leave the same world and fail on the same sources. *)
Lemma Rev0_Load_files l paths w :
  (EnvRev0.Load_files l paths w).2 = (EnvRev1.Load_files l paths w).2 /\
  ((EnvRev0.Load_files l paths w).1 = None <->
   (EnvRev1.Load_files l paths w).1 = None).
Proof.
  rewrite Rev1_Load_files.
  revert w. induction paths as [|path rest IH]; intros w; [done|].
  rewrite Rev0_Load_files_cons, Load_files_cons. simpl.
  destruct (resolve (fs w) path); [|done|apply IH].
  destruct (EnvRev1.skipMissingFiles l); [apply IH|done].
Qed.

(** X12 (the first revision against the second).  The two earlier
    revisions of [Load] leave the same world, return the same configuration
    value, and return an error in the same cases; only the errors they wrap
    differ. *)
Lemma Rev0_Load l w :
  (EnvRev0.Load l w).2 = (EnvRev1.Load l w).2 /\
  (EnvRev0.Load l w).1.1 = (EnvRev1.Load l w).1.1 /\
  ((EnvRev0.Load l w).1.2 = None <-> (EnvRev1.Load l w).1.2 = None).
Proof.
  unfold EnvRev0.Load, EnvRev1.Load.
  destruct (Rev0_Load_files l (EnvRev1.envFiles l) w) as [Hw Herr].
  destruct (EnvRev0.Load_files l (EnvRev1.envFiles l) w) as [[e0|] w0];
    destruct (EnvRev1.Load_files l (EnvRev1.envFiles l) w) as [[e1|] w1];
    simpl in *; subst.
  - done.
  - destruct Herr as [_ Herr]. by specialize (Herr eq_refl).
  - destruct Herr as [Herr _]. by specialize (Herr eq_refl).
  - by destruct (env_Parse zero w1) as [[cfg [err|]] w2].
Qed.

(** Both return a value or an error, never both and never neither. *)
Lemma Rev1_value_xor_error l w :
  (exists err, (EnvRev1.Load l w).1 = (None, Some err)) \/
  (exists cfg, (EnvRev1.Load l w).1 = (Some cfg, None)).
Proof.
  unfold EnvRev1.Load.
  destruct (EnvRev1.Load_files l (EnvRev1.envFiles l) w) as [[e|] w1]; [by eauto|].
  destruct (env_Parse zero w1) as [[cfg [err|]] w2]; by eauto.
Qed.

Lemma Rev0_value_xor_error l w :
  (exists err, (EnvRev0.Load l w).1 = (None, Some err)) \/
  (exists cfg, (EnvRev0.Load l w).1 = (Some cfg, None)).
Proof.
  unfold EnvRev0.Load.
  destruct (EnvRev0.Load_files l (EnvRev1.envFiles l) w) as [[e|] w1]; [by eauto|].
  destruct (env_Parse zero w1) as [[cfg [err|]] w2]; by eauto.
Qed.

End Revisions.

(** ** Further properties of the loader *)

Section Further.
Context `{Libraries} {T : Type} `{!Bindable T}.

Implicit Types (l : Env.Loader T) (w : World) (path k v : string).
Implicit Types (paths pre post : list string).

Local Abbreviation wrap path := (Errorf ("error loading env file " +:+ path +:+ ": ")).

(** A run of the loop that fails has a first failing source: the sources
    before it were loaded or skipped, and it is either missing, with the
    skip option off, or cannot be loaded. *)
Lemma Load_files_failure l paths w err w' :
  Env.Load_files l paths w = (Some err, w') ->
  exists pre path post w1,
    paths = (pre ++ path :: post)%list /\
    Env.Load_files l pre w = (None, w1) /\
    ((resolve (fs w) path = Missing /\
      Env.SkipMissingFiles (Env.Opts l) = false /\
      err = wrap path ErrSourceNotFound /\
      w' = log (CallStat path) w1) \/
     (exists e, resolve (fs w) path = Failing e /\
        err = wrap path (Errorf "failed to load env file: " e) /\
        w' = log (CallDotenvLoad path) (log (CallStat path) w1))).
Proof.
  revert w. induction paths as [|p rest IH]; intros w Hrun; [done|].
  rewrite Load_files_cons in Hrun.
  destruct (resolve (fs w) p) as [|e|pairs] eqn:Hres.
  - destruct (Env.SkipMissingFiles (Env.Opts l)) eqn:Hskip.
    + destruct (IH _ Hrun) as (pre & path & post & w1 & -> & Hpre & Hcase).
      exists (p :: pre), path, post, w1. split; [done|]. split; [|exact Hcase].
      by rewrite Load_files_cons, Hres, Hskip.
    + injection Hrun as <- <-. exists [], p, rest, w.
      split; [done|]. split; [done|]. by left.
  - injection Hrun as <- <-. exists [], p, rest, w.
    split; [done|]. split; [done|]. right. by exists e.
  - destruct (IH _ Hrun) as (pre & path & post & w1 & -> & Hpre & Hcase).
    exists (p :: pre), path, post, w1. split; [done|]. split.
    + by rewrite Load_files_cons, Hres.
    + by rewrite materialize_fs in Hcase.
Qed.


(** X2 ([Load] over a list in two parts).  A [Load] of the sources
    [pre ++ post] is the loop over [pre] followed, when that loop failed, by
    the return of its error and, when it passed, by a [Load] of [post] in
    the world it left. *)
Theorem Load_concat l pre post w :
  Env.Files l = (pre ++ post)%list ->
  Env.Load l w =
  match Env.Load_files l pre w with
  | (Some err, w1) => ((None, Some err), w1)
  | (None, w1) => Env.Load (Env.mkLoader post (Env.Opts l)) w1
  end.
Proof.
  intros Hfiles.
  destruct (Env.Load_files l pre w) as [[err|] w1] eqn:Hpre.
  - by rewrite Load_unfold, Hfiles, Load_files_app, Hpre.
  - rewrite !Load_unfold, Hfiles, Load_files_app, Hpre. simpl.
    by rewrite (Load_files_Opts l (@Env.mkLoader _ T post (Env.Opts l))).
Qed.

(** X3 (what [errors.Is] tells the caller).  In the error of a failed
    [Load], [errors.Is] finds [ErrSourceNotFound] exactly when the skip
    option is off and [Load] reached a source that does not exist. *)
Theorem Load_error_Is_ErrSourceNotFound l w err :
  (Env.Load l w).1 = (None, Some err) ->
  (errors_Is err ErrSourceNotFound = true <->
   Env.SkipMissingFiles (Env.Opts l) = false /\
   exists pre path post w1,
     Env.Files l = (pre ++ path :: post)%list /\
     Env.Load_files l pre w = (None, w1) /\
     not_exist (fs w) path).
Proof.
  rewrite Load_unfold.
  destruct (Env.Load_files l (Env.Files l) w) as [[e|] w'] eqn:Hrun.
  - intros [= <-].
    destruct (Load_files_failure _ _ _ _ _ Hrun)
      as (pre & path & post & w1 & Hfiles & Hpre & Hcase).
    assert (Hfs : fs w1 = fs w).
    { rewrite <- (Load_files_fs l pre w). by rewrite Hpre. }
    destruct Hcase as [(Hres & Hskip & -> & _)|(e' & Hres & -> & _)].
    + split.
      * intros _. split; [done|]. exists pre, path, post, w1.
        by rewrite resolve_Missing.
      * intros _. apply errors_Is_Errorf, errors_Is_refl.
    + split.
      * intros His.
        change (errors_Is (Errorf "failed to load env file: " e')
                  ErrSourceNotFound = true) in His.
        by rewrite (resolve_Failing_Is _ _ _ "failed to load env file: " Hres)
          in His.
      * intros (Hskip & pre' & path' & post' & w1' & Hfiles' & Hpre' & Hmiss).
        exfalso. rewrite Hfiles', Load_files_app, Hpre', Load_files_cons in Hrun.
        assert (Hfs' : fs w1' = fs w).
        { rewrite <- (Load_files_fs l pre' w). by rewrite Hpre'. }
        apply resolve_Missing in Hmiss. rewrite Hfs', Hmiss, Hskip in Hrun.
        by injection Hrun.
  - destruct (caarlos0_ParseWithOptions _ _ _) as [cfg [msg|]]; [|done].
    intros [= <-]. split; [done|].
    intros (Hskip & pre & path & post & w1 & Hfiles & Hpre & Hmiss).
    exfalso. rewrite Hfiles, Load_files_app, Hpre, Load_files_cons in Hrun.
    assert (Hfs : fs w1 = fs w).
    { rewrite <- (Load_files_fs l pre w). by rewrite Hpre. }
    apply resolve_Missing in Hmiss. by rewrite Hfs, Hmiss, Hskip in Hrun.
Qed.

(** X4 (the text of the errors).  The message of a failed [Load] is one of
    three: a listed path with "source not found", a listed path with
    "failed to load env file" and the text of the library's error, or
    "error parsing env variables into struct" with the text of the
    binder's error. *)
Theorem Load_error_messages l w err :
  (Env.Load l w).1 = (None, Some err) ->
  (exists path, path ∈ Env.Files l /\
     Error err = ("error loading env file " +:+ path +:+ ": ")
                 +:+ "source not found") \/
  (exists path e, path ∈ Env.Files l /\
     Error err = ("error loading env file " +:+ path +:+ ": ")
                 +:+ ("failed to load env file: " +:+ Error e)) \/
  (exists msg,
     Error err = "error parsing env variables into struct: " +:+ msg).
Proof.
  rewrite Load_unfold.
  destruct (Env.Load_files l (Env.Files l) w) as [[e|] w'] eqn:Hrun.
  - intros [= <-].
    destruct (Load_files_failure _ _ _ _ _ Hrun)
      as (pre & path & post & w1 & Hfiles & _ & Hcase).
    assert (Hin : path ∈ Env.Files l).
    { rewrite Hfiles. apply elem_of_app. right. apply elem_of_cons. by left. }
    destruct Hcase as [(_ & _ & -> & _)|(e' & _ & -> & _)].
    + left. by exists path.
    + right. left. by exists path, e'.
  - destruct (caarlos0_ParseWithOptions _ _ _) as [cfg [msg|]]; [|done].
    intros [= <-]. right. right. by exists msg.
Qed.

(** The loop passes exactly when every source passes. *)
Lemma Load_files_passes_iff l paths w :
  (Env.Load_files l paths w).1 = None <->
  Forall (passes (Env.SkipMissingFiles (Env.Opts l)) (fs w)) paths.
Proof.
  revert w. induction paths as [|p rest IH]; intros w; [done|].
  rewrite Load_files_cons, Forall_cons. unfold passes at 1.
  destruct (resolve (fs w) p) as [|e|pairs].
  - destruct (Env.SkipMissingFiles (Env.Opts l)).
    + rewrite IH. simpl. tauto.
    + simpl. split; [done|]. by intros [? _].
  - simpl. split; [done|tauto].
  - rewrite IH, materialize_fs. simpl. tauto.
Qed.

Lemma provided_app (files : gmap string node) pre post :
  provided files (pre ++ post)%list =
  (provided files pre ++ provided files post)%list.
Proof.
  induction pre as [|p pre IH]; [done|]. simpl.
  destruct (resolve files p); rewrite IH; [done..|]. by rewrite app_assoc.
Qed.

(** Insert-if-absent over a list of pairs is a union that prefers what is
    there. *)
Lemma materialize_union (pairs : list (string * string)) w :
  environ (materialize pairs w) = environ w ∪ list_to_map pairs.
Proof.
  revert w. induction pairs as [|[k v] rest IH]; intros w; simpl.
  - by rewrite (right_id_L ∅ (∪)).
  - rewrite IH. unfold setenv_if_absent. simpl.
    destruct (environ w !! k) as [v0|] eqn:Hk; simpl.
    + apply map_eq. intros k'. rewrite !lookup_union.
      destruct (decide (k = k')) as [<-|Hne].
      * rewrite Hk. by destruct (list_to_map rest !! k), (<[k:=v]> _ !! k).
      * by rewrite lookup_insert_ne.
    + by rewrite <- insert_union_l, insert_union_r.
Qed.

(** The environment the loop leaves: the starting one, then the pairs of the
    well-formed files among the sources it went through, earlier ones
    first. *)
Lemma Load_files_environ l paths w :
  exists n,
    environ (Env.Load_files l paths w).2 =
    environ w ∪ list_to_map (provided (fs w) (take n paths)) /\
    ((Env.Load_files l paths w).1 = None -> take n paths = paths).
Proof.
  revert w. induction paths as [|p rest IH]; intros w.
  - exists 0. simpl. by rewrite (right_id_L ∅ (∪)).
  - rewrite Load_files_cons.
    destruct (resolve (fs w) p) as [|e|pairs] eqn:Hres.
    + destruct (Env.SkipMissingFiles (Env.Opts l)).
      * destruct (IH (log (CallStat p) w)) as (n & Henv & Hall).
        exists (S n). simpl. rewrite Hres. split; [exact Henv|].
        intros Hok. by rewrite (Hall Hok).
      * exists 0. simpl. by rewrite (right_id_L ∅ (∪)).
    + exists 0. simpl. by rewrite (right_id_L ∅ (∪)).
    + destruct (IH (materialize pairs
                      (log (CallDotenvLoad p) (log (CallStat p) w))))
        as (n & Henv & Hall).
      exists (S n). simpl. rewrite Hres. split.
      * rewrite Henv, materialize_union, materialize_fs. simpl.
        by rewrite list_to_map_app, (assoc_L (∪)).
      * intros Hok. by rewrite (Hall Hok).
Qed.

(** X5 (what makes [Load] succeed, and with what).  [Load] returns a
    configuration value exactly when every listed source is a well-formed
    file, or is missing while the skip option is on, and the binder accepts
    the merged environment: the starting environment, then the pairs of the
    files in listed order, a key keeping the first value it got.  The value
    returned is the binder's. *)
Theorem Load_success_iff l w cfg :
  (Env.Load l w).1 = (Some cfg, None) <->
  Forall (passes (Env.SkipMissingFiles (Env.Opts l)) (fs w)) (Env.Files l) /\
  caarlos0_ParseWithOptions (Env.EnvOptions (Env.Opts l))
    (environ w ∪ list_to_map (provided (fs w) (Env.Files l))) zero
  = (cfg, None).
Proof.
  rewrite <- Load_files_passes_iff, Load_unfold.
  destruct (Load_files_environ l (Env.Files l) w) as (n & Henv & Hall).
  destruct (Env.Load_files l (Env.Files l) w) as [[e|] w'] eqn:Hrun; simpl in *.
  - split; [done|]. by intros [? _].
  - rewrite (Hall eq_refl) in Henv. rewrite <- Henv.
    destruct (caarlos0_ParseWithOptions _ _ _) as [cfg' [msg|]].
    + split; [done|]. by intros [_ ?].
    + split.
      * by intros [= ->].
      * by intros [_ [= ->]].
Qed.

(** X6 (nothing to load).  When the skip option is on, or no source is
    listed, and none of the listed sources exists, [Load] only tests each
    source for existence, in listed order, and calls the binder: the
    environment is left as it was and the result is the binder's on it. *)
Theorem Load_nothing_to_load l w :
  Env.SkipMissingFiles (Env.Opts l) = true \/ Env.Files l = [] ->
  Forall (not_exist (fs w)) (Env.Files l) ->
  environ (Env.Load l w).2 = environ w /\
  calls (Env.Load l w).2 =
    (CallEnvParse :: rev (CallStat <$> Env.Files l) ++ calls w)%list /\
  (Env.Load l w).1 =
    match caarlos0_ParseWithOptions
            (Env.EnvOptions (Env.Opts l)) (environ w) zero with
    | (_, Some msg) =>
        (None, Some (Errorf "error parsing env variables into struct: "
                       (ForeignError "env" msg)))
    | (cfg, None) => (Some cfg, None)
    end.
Proof.
  intros Hskip Hmiss.
  assert (Hloop : forall paths w0,
            Forall (not_exist (fs w0)) paths ->
            Env.SkipMissingFiles (Env.Opts l) = true \/ paths = [] ->
            Env.Load_files l paths w0 =
            (None, mkWorld (fs w0) (environ w0)
                     (rev (CallStat <$> paths) ++ calls w0)%list)).
  { induction paths as [|p rest IH]; intros w0 Hall Hs.
    - by destruct w0.
    - destruct Hs as [Hs|Hs]; [|done].
      apply Forall_cons in Hall as [Hp Hall]. apply resolve_Missing in Hp.
      rewrite Load_files_cons, Hp, Hs, (IH (log (CallStat p) w0)); [|done|by left].
      simpl. by rewrite <- app_assoc. }
  rewrite Load_unfold, (Hloop _ _ Hmiss Hskip). simpl.
  by destruct (caarlos0_ParseWithOptions _ _ _) as [cfg [msg|]].
Qed.

Lemma stat_paths_app (cs1 cs2 : list Call) :
  stat_paths (cs1 ++ cs2)%list = (stat_paths cs1 ++ stat_paths cs2)%list.
Proof. apply omap_app. Qed.

Lemma dotenv_paths_app (cs1 cs2 : list Call) :
  dotenv_paths (cs1 ++ cs2)%list = (dotenv_paths cs1 ++ dotenv_paths cs2)%list.
Proof. apply omap_app. Qed.

Lemma paths_of_setenv (cs : list Call) :
  Forall (fun c => exists k v, c = CallSetenv k v) cs ->
  stat_paths cs = [] /\ dotenv_paths cs = [] /\ CallEnvParse ∉ cs.
Proof.
  induction 1 as [|c cs (k & v & ->) _ (IHs & IHd & IHp)].
  - split; [done|]. split; [done|]. by intros ?%elem_of_nil.
  - split; [done|]. split; [done|].
    intros [?|?]%elem_of_cons; [done|by apply IHp].
Qed.

Lemma resolve_exists (files : gmap string node) path :
  resolve files path <> Missing -> os_IsNotExist (stat_error files path) = false.
Proof.
  intros Hne. destruct (os_IsNotExist (stat_error files path)) eqn:Hstat; [|done].
  by apply resolve_Missing in Hstat.
Qed.

(** The calls of the loop, most recent first.  The sources tested for
    existence are, in listed order, all of them when the loop passes, and
    otherwise those up to and including the first that does not pass, and no
    other; [godotenv.Load] is called on the tested sources that [os.Stat]
    did not report missing, and on no other; the binder is not called. *)
Lemma Load_files_trace l paths w :
  exists new : list Call,
    calls (Env.Load_files l paths w).2 = (new ++ calls w)%list /\
    dotenv_paths new `sublist_of` stat_paths new /\
    rev (dotenv_paths new) =
      filter (fun p => os_IsNotExist (stat_error (fs w) p) = false)
             (rev (stat_paths new)) /\
    (CallEnvParse ∉ new) /\
    match (Env.Load_files l paths w).1 with
    | None =>
        rev (stat_paths new) = paths /\
        Forall (passes (Env.SkipMissingFiles (Env.Opts l)) (fs w)) paths
    | Some _ =>
        exists pre path post,
          paths = (pre ++ path :: post)%list /\
          Forall (passes (Env.SkipMissingFiles (Env.Opts l)) (fs w)) pre /\
          (~ passes (Env.SkipMissingFiles (Env.Opts l)) (fs w) path) /\
          rev (stat_paths new) = (pre ++ [path])%list
    end.
Proof.
  revert w. induction paths as [|p rest IH]; intros w.
  - exists []. split; [done|]. split; [done|]. split; [done|].
    split; [by intros ?%elem_of_nil|]. done.
  - rewrite Load_files_cons.
    assert (Hone : forall P : string -> Prop, forall Hdec : forall x, Decision (P x),
              filter P [p] = if decide (P p) then [p] else []).
    { intros P Hdec. by destruct (decide (P p)) as [HP|HP];
        [rewrite filter_cons_True|rewrite filter_cons_False]. }
    destruct (resolve (fs w) p) as [|e|pairs] eqn:Hres.
    + assert (Hmiss : os_IsNotExist (stat_error (fs w) p) = true)
        by by apply resolve_Missing.
      assert (Hpass : forall skip, skip = true -> passes skip (fs w) p).
      { intros skip ->. unfold passes. by rewrite Hres. }
      destruct (Env.SkipMissingFiles (Env.Opts l)) eqn:Hskip.
      * destruct (IH (log (CallStat p) w))
          as (new & -> & Hsub & Hload & Hno & Hstat).
        exists (new ++ [CallStat p])%list.
        assert (Hst : stat_paths (new ++ [CallStat p]) =
                      (stat_paths new ++ [p])%list)
          by by rewrite stat_paths_app.
        assert (Hdt : dotenv_paths (new ++ [CallStat p]) = dotenv_paths new).
        { rewrite dotenv_paths_app. apply (right_id_L [] app). }
        rewrite Hst, Hdt, !rev_unit.
        split; [by rewrite <- app_assoc|].
        split; [by apply sublist_inserts_r|].
        split.
        { rewrite filter_cons_False by (by rewrite Hmiss). exact Hload. }
        split.
        { intros [?|[?|?%elem_of_nil]%elem_of_cons]%elem_of_app; by try done. }
        change (fs (log (CallStat p) w)) with (fs w) in Hstat.
        destruct (Env.Load_files l rest (log (CallStat p) w)).1.
        -- destruct Hstat as (pre & path & post & -> & Hpre & Hpath & ->).
           exists (p :: pre), path, post. split; [done|]. split; [|done].
           apply Forall_cons. split; [by apply Hpass|done].
        -- destruct Hstat as [-> Hall]. split; [done|].
           apply Forall_cons. split; [by apply Hpass|done].
      * exists [CallStat p].
        change (stat_paths [CallStat p]) with [p].
        change (dotenv_paths [CallStat p]) with (@nil string).
        change (rev [p]) with [p]. change (rev (@nil string)) with (@nil string).
        split; [done|]. split; [by apply sublist_nil_l|].
        split; [by rewrite filter_cons_False by (by rewrite Hmiss)|].
        split; [by intros [?|?%elem_of_nil]%elem_of_cons|].
        exists [], p, rest. split; [done|]. split; [done|]. split; [|done].
        unfold passes. by rewrite Hres.
    + assert (Hex : os_IsNotExist (stat_error (fs w) p) = false).
      { apply resolve_exists. by rewrite Hres. }
      exists [CallDotenvLoad p; CallStat p].
      change (stat_paths [CallDotenvLoad p; CallStat p]) with [p].
      change (dotenv_paths [CallDotenvLoad p; CallStat p]) with [p].
      change (rev [p]) with [p].
      split; [done|]. split; [done|].
      split; [by rewrite filter_cons_True by done|].
      split; [by intros [?|[?|?%elem_of_nil]%elem_of_cons]%elem_of_cons|].
      exists [], p, rest. split; [done|]. split; [done|]. split; [|done].
      unfold passes. rewrite Hres. by intros [].
    + assert (Hex : os_IsNotExist (stat_error (fs w) p) = false).
      { apply resolve_exists. by rewrite Hres. }
      assert (Hpass : forall skip, passes skip (fs w) p).
      { intros skip. unfold passes. by rewrite Hres. }
      set (wl := log (CallDotenvLoad p) (log (CallStat p) w)).
      destruct (IH (materialize pairs wl))
        as (new & -> & Hsub & Hload & Hno & Hstat).
      rewrite materialize_fs in Hload, Hstat.
      change (fs wl) with (fs w) in Hload, Hstat.
      destruct (materialize_calls pairs wl) as (sets & -> & Hsets).
      destruct (paths_of_setenv sets Hsets) as (Hs & Hd & Hp).
      exists (new ++ sets ++ [CallDotenvLoad p; CallStat p])%list.
      assert (Hst : stat_paths (new ++ sets ++ [CallDotenvLoad p; CallStat p]) =
                    (stat_paths new ++ [p])%list)
        by by rewrite !stat_paths_app, Hs.
      assert (Hdt : dotenv_paths (new ++ sets ++ [CallDotenvLoad p; CallStat p]) =
                    (dotenv_paths new ++ [p])%list)
        by by rewrite !dotenv_paths_app, Hd.
      rewrite Hst, Hdt, !rev_unit.
      split; [by rewrite <- !app_assoc|].
      split; [by apply sublist_app|].
      split.
      { rewrite filter_cons_True by done. f_equal. exact Hload. }
      split.
      { intros [?|[?|Hin]%elem_of_app]%elem_of_app; try done.
        by apply elem_of_cons in Hin as [?|[?|?%elem_of_nil]%elem_of_cons]. }
      destruct (Env.Load_files l rest (materialize pairs wl)).1.
      * destruct Hstat as (pre & path & post & -> & Hpre & Hpath & ->).
        exists (p :: pre), path, post. split; [done|]. split; [|done].
        apply Forall_cons. split; [apply Hpass|done].
      * destruct Hstat as [-> Hall]. split; [done|].
        apply Forall_cons. split; [apply Hpass|done].
Qed.

(** X7 (the calls [Load] makes).  During a [Load] the listed sources are
    tested for existence one after the other in listed order.  When every
    source passes, all of them are tested and the binder is called once,
    last.  Otherwise testing stops at the first source that does not pass:
    the sources tested are those listed up to and including it, no later
    one, and the binder is not called.  [godotenv.Load] is called on
    exactly the tested sources that [os.Stat] did not report missing, in
    the same order. *)
Theorem Load_call_order l w :
  exists new : list Call,
    calls (Env.Load l w).2 = (new ++ calls w)%list /\
    rev (stat_paths new) `prefix_of` Env.Files l /\
    dotenv_paths new `sublist_of` stat_paths new /\
    rev (dotenv_paths new) =
      filter (fun p => os_IsNotExist (stat_error (fs w) p) = false)
             (rev (stat_paths new)) /\
    match (Env.Load_files l (Env.Files l) w).1 with
    | None =>
        rev (stat_paths new) = Env.Files l /\
        Forall (passes (Env.SkipMissingFiles (Env.Opts l)) (fs w)) (Env.Files l) /\
        exists before, new = CallEnvParse :: before /\ CallEnvParse ∉ before
    | Some _ =>
        (CallEnvParse ∉ new) /\
        exists pre path post,
          Env.Files l = (pre ++ path :: post)%list /\
          Forall (passes (Env.SkipMissingFiles (Env.Opts l)) (fs w)) pre /\
          (~ passes (Env.SkipMissingFiles (Env.Opts l)) (fs w) path) /\
          rev (stat_paths new) = (pre ++ [path])%list
    end.
Proof.
  destruct (Load_files_trace l (Env.Files l) w)
    as (new & Hcalls & Hsub & Hload & Hno & Hstat).
  rewrite Load_unfold.
  destruct (Env.Load_files l (Env.Files l) w) as [[e|] w'] eqn:Hrun; simpl in *.
  - exists new. split; [done|].
    destruct Hstat as (pre & path & post & Hfiles & Hpre & Hpath & Hrev).
    split.
    { rewrite Hrev, Hfiles. apply prefix_app, prefix_cons, prefix_nil. }
    split; [done|]. split; [done|]. split; [done|].
    by exists pre, path, post.
  - exists (CallEnvParse :: new).
    assert (Hlog : calls (log CallEnvParse w') =
                   ((CallEnvParse :: new) ++ calls w)%list).
    { simpl. by rewrite Hcalls. }
    destruct Hstat as [Hrev Hall].
    destruct (caarlos0_ParseWithOptions _ _ _) as [cfg [msg|]]; simpl;
      (split; [exact Hlog|]); (split; [by rewrite Hrev|]);
      (split; [exact Hsub|]); (split; [exact Hload|]);
      (split; [exact Hrev|]); (split; [exact Hall|]); by exists new.
Qed.

Lemma clearEnvironmentVariables_fs (keys : list string) w :
  fs (clearEnvironmentVariables keys w) = fs w.
Proof.
  revert w. induction keys as [|k0 rest IH]; intros w; [done|].
  simpl. by rewrite IH.
Qed.

Lemma clearEnvironmentVariables_lookup (keys : list string) w k :
  environ (clearEnvironmentVariables keys w) !! k =
  if decide (k ∈ keys) then None else environ w !! k.
Proof.
  revert w. induction keys as [|k0 rest IH]; intros w;
    cbn [clearEnvironmentVariables].
  - by destruct (decide (k ∈ [])) as [?%elem_of_nil|].
  - rewrite IH. cbn [os_Unsetenv with_environ environ snd].
    destruct (decide (k = k0)) as [->|Hne].
    + rewrite lookup_delete_eq.
      rewrite (decide_True _ _ (list_elem_of_here k0 rest)). by case_decide.
    + rewrite lookup_delete_ne by done.
      case_decide as Hin.
      * rewrite decide_True; [done|]. apply elem_of_cons. by right.
      * rewrite decide_False; [done|].
        by intros [?|?]%elem_of_cons.
Qed.

(** X8 (cleaning up after a test).  [clearEnvironmentVariables] unsets the
    keys it is given and no other.  So when the files of a loader define no
    key outside [keys] and none of [keys] was set before [Load], clearing
    [keys] after [Load] gives back the environment [Load] started from,
    whether [Load] succeeded or failed. *)
Theorem clearEnvironmentVariables_after_Load l w (keys : list string) :
  (forall kv, kv ∈ provided (fs w) (Env.Files l) -> kv.1 ∈ keys) ->
  (forall k, k ∈ keys -> environ w !! k = None) ->
  (forall k, environ (clearEnvironmentVariables keys (Env.Load l w).2) !! k =
             if decide (k ∈ keys) then None else environ (Env.Load l w).2 !! k) /\
  environ (clearEnvironmentVariables keys (Env.Load l w).2) = environ w.
Proof.
  intros Hkeys Hunset. split; [intros k; apply clearEnvironmentVariables_lookup|].
  apply map_eq. intros k. rewrite clearEnvironmentVariables_lookup, Load_environ.
  case_decide as Hin; [by rewrite Hunset|].
  destruct (Load_files_environ l (Env.Files l) w) as (n & -> & _).
  rewrite lookup_union.
  destruct (list_to_map (provided (fs w) (take n (Env.Files l))) !! k)
    as [v|] eqn:Hk; [|by destruct (environ w !! k)].
  exfalso. apply Hin.
  apply elem_of_list_to_map_2 in Hk.
  apply (Hkeys (k, v)).
  rewrite <- (take_drop n (Env.Files l)), provided_app.
  apply elem_of_app. by left.
Qed.

End Further.

(** ** Further properties of construction *)

Section FurtherConstruction.
Context `{Libraries} {T : Type}.

(** A run of the options that fails has a first failing option. *)
Lemma NewLoader_options_failure (opts : list Env.Option) (o0 : Env.Options)
    (e : error) :
  Env.NewLoader_options opts o0 = inl e ->
  exists pre opt post o o' err,
    opts = (pre ++ opt :: post)%list /\
    Env.NewLoader_options pre o0 = inr o /\
    opt o = (o', Some err) /\
    e = Errorf "error creating loader: invalid option: " err.
Proof.
  revert o0. induction opts as [|opt rest IH]; intros o0 Hrun; [done|].
  simpl in Hrun. destruct (opt o0) as [o1 [err|]] eqn:Hopt.
  - injection Hrun as <-. by exists [], opt, rest, o0, o1, err.
  - destruct (IH _ Hrun) as (pre & opt' & post & o & o' & err & -> & Hpre & Hfail & ->).
    exists (opt :: pre), opt', post, o, o', err.
    split; [done|]. split; [|done]. simpl. by rewrite Hopt.
Qed.

(** X9 (the three outcomes of [NewLoader]).  [NewLoader] returns either a
    loader and a nil error, or a nil loader and an error, never both and
    never neither.  The loader holds exactly the list it was given, which is
    not empty, and the record the options left: an option has no access to
    the list.  The error is [ErrEnvFilesNotSpecified] exactly for the empty
    list; otherwise it wraps the error of the first option that failed. *)
Theorem NewLoader_outcomes (files : list string) (opts : list Env.Option) :
  (exists l, Env.NewLoader T files opts = (Some l, None) /\
     Env.Files l = files /\ files <> [] /\
     Env.NewLoader_options opts Env.Options_zero = inr (Env.Opts l)) \/
  (Env.NewLoader T files opts = (None, Some ErrEnvFilesNotSpecified) /\
   files = []) \/
  (exists pre opt post o o' err,
     Env.NewLoader T files opts =
       (None, Some (Errorf "error creating loader: invalid option: " err)) /\
     files <> [] /\
     opts = (pre ++ opt :: post)%list /\
     Env.NewLoader_options pre Env.Options_zero = inr o /\
     opt o = (o', Some err)).
Proof.
  destruct files as [|f files].
  - right. left. done.
  - rewrite NewLoader_nonempty by done.
    destruct (Env.NewLoader_options opts Env.Options_zero) as [e|o] eqn:Hrun.
    + right. right.
      destruct (NewLoader_options_failure _ _ _ Hrun)
        as (pre & opt & post & o & o' & err & Hopts & Hpre & Hfail & ->).
      by exists pre, opt, post, o, o', err.
    + left. by eexists.
Qed.

Lemma NewLoader_options_calls (cs : list OptionCall) (o : Env.Options) :
  Env.NewLoader_options (option_of <$> cs) o =
  inr (Env.mkOptions (Env.SkipMissingFiles o || existsb is_skip_call cs)
         (last_EnvOptions cs (Env.EnvOptions o))).
Proof.
  revert o. induction cs as [|[|envOptions] rest IH]; intros [skip envOpts]; simpl.
  - by rewrite orb_false_r.
  - rewrite IH. simpl. by rewrite orb_true_r.
  - by rewrite IH.
Qed.

(** X10 (the package's options in any order).  For options written with
    the package's two constructors, the loader that [NewLoader] builds has
    the skip flag set exactly when [WithSkipMissingFiles] is among them,
    wherever and however often, and binder options that are those of the
    last [WithEnvOptions], or the zero value when there is none. *)
Theorem NewLoader_option_calls (files : list string) (cs : list OptionCall) :
  files <> [] ->
  Env.NewLoader T files (option_of <$> cs) =
  (Some (Env.mkLoader files
           (Env.mkOptions (existsb is_skip_call cs)
              (last_EnvOptions cs caarlos0_Options_zero))), None).
Proof.
  intros Hne. by rewrite NewLoader_nonempty, NewLoader_options_calls.
Qed.

Lemma Rev1_NewLoader_options_skip (n : nat) (loader : EnvRev1.Loader T) :
  EnvRev1.NewLoader_options (replicate n EnvRev1.WithSkipMissingFiles) loader =
  EnvRev1.mkLoader (EnvRev1.envFiles loader)
    (EnvRev1.skipMissingFiles loader || bool_decide (0 < n)).
Proof.
  revert loader. induction n as [|n IH]; intros [files skip]; simpl.
  - by rewrite orb_false_r.
  - rewrite IH. simpl. by rewrite orb_true_r.
Qed.

(** X14 ([NewLoader] before options could fail).  In the earlier revision
    [NewLoader] returns a nil loader exactly for the empty list, with
    [ErrEnvFilesNotSpecified]; whatever the options, a non-empty list gives
    a loader.  With the option the package provides, given any number of
    times, the loader holds the list, has the skip flag set when the option
    was given at all, and is the one that the current [NewLoader] builds
    from the same call. *)
Theorem Rev1_NewLoader_outcomes (files : list string) :
  (forall opts : list EnvRev1.LoaderOption,
     (EnvRev1.NewLoader T files opts).1 = None <-> files = []) /\
  (forall opts : list EnvRev1.LoaderOption,
     (EnvRev1.NewLoader T files opts).1 = None ->
     (EnvRev1.NewLoader T files opts).2 = Some ErrEnvFilesNotSpecified) /\
  (forall n : nat, files <> [] ->
     EnvRev1.NewLoader T files (replicate n EnvRev1.WithSkipMissingFiles) =
       (Some (EnvRev1.mkLoader files (bool_decide (0 < n))), None) /\
     Env.NewLoader T files (replicate n Env.WithSkipMissingFiles) =
       (Some (upgrade (EnvRev1.mkLoader files (bool_decide (0 < n)))), None)).
Proof.
  split; [|split].
  - intros opts. unfold EnvRev1.NewLoader. destruct files; simpl; [done|].
    split; [done|discriminate].
  - intros opts. unfold EnvRev1.NewLoader. by destruct files.
  - intros n Hne. split.
    + unfold EnvRev1.NewLoader. case_decide as Hlen; [by destruct files|].
      by rewrite Rev1_NewLoader_options_skip.
    + replace (replicate n Env.WithSkipMissingFiles)
        with (option_of <$> replicate n CallWithSkipMissingFiles)
        by by rewrite fmap_replicate.
      rewrite NewLoader_nonempty, NewLoader_options_calls by done.
      unfold upgrade. simpl. do 3 f_equal. f_equal.
      * by destruct n.
      * clear Hne. by induction n.
Qed.

End FurtherConstruction.

(** ** Concrete runs

    The theorems above at concrete loaders and worlds, with the reader and
    the binder of [Sample]. *)

#[local] Existing Instance Sample.libraries.
#[local] Existing Instance Sample.bindable.

(** The options record and the pass-through option with the binder's
    options of [Sample]. *)
Local Abbreviation options skip prefix :=
  (@Env.mkOptions Sample.libraries skip (Sample.mkOptions prefix)).
Local Abbreviation WithPrefix prefix :=
  (@Env.WithEnvOptions Sample.libraries (Sample.mkOptions prefix)).

(** C1 as stated fails when the key is set in the starting environment: the
    first file defines [KEY=1], the second [KEY=2], and after [Load] the
    environment holds the ambient [KEY=0]. *)
Lemma C1_counterexample :
  let l : Env.Loader Sample.SampleConfig :=
    Env.mkLoader ["first.env"; "second.env"] Env.Options_zero in
  let w := Sample.world [("first.env", Regular "KEY=1");
                         ("second.env", Regular "KEY=2")]
                        [("KEY", "0")] in
  file_defines (fs w) "first.env" "KEY" "1" /\
  file_defines (fs w) "second.env" "KEY" "2" /\
  (Env.Load l w).1 = (Some (Sample.mkSampleConfig "" 0), None) /\
  environ (Env.Load l w).2 !! "KEY" = Some "0" /\
  environ (Env.Load l w).2 !! "KEY" <> Some "1".
Proof.
  intros l w. split; [|split; [|split; [|split]]].
  - exists "KEY=1", [("KEY", "1")].
    split; [|split]; vm_compute; reflexivity.
  - exists "KEY=2", [("KEY", "2")].
    split; [|split]; vm_compute; reflexivity.
  - vm_compute. reflexivity.
  - vm_compute. reflexivity.
  - vm_compute. discriminate.
Qed.

(** Two files that both define [KEY], and [HOME] set in the ambient
    environment. *)
Lemma C1_first_listed_wins_witness :
  let l : Env.Loader Sample.SampleConfig :=
    Env.mkLoader ["first.env"; "second.env"] Env.Options_zero in
  let w := Sample.world [("first.env", Regular "KEY=1");
                         ("second.env", Regular "KEY=2")]
                        [("HOME", "/root")] in
  file_defines (fs w) "first.env" "KEY" "1" /\
  file_defines (fs w) "second.env" "KEY" "2" /\
  environ w !! "KEY" = None /\
  environ (Env.Load l w).2 !! "HOME" = Some "/root" /\
  environ (Env.Load l w).2 !! "KEY" = Some "1".
Proof.
  intros l w.
  assert (HF1 : file_defines (fs w) "first.env" "KEY" "1").
  { exists "KEY=1", [("KEY", "1")].
    split; [|split]; vm_compute; reflexivity. }
  assert (HF2 : file_defines (fs w) "second.env" "KEY" "2").
  { exists "KEY=2", [("KEY", "2")].
    split; [|split]; vm_compute; reflexivity. }
  assert (Hunset : environ w !! "KEY" = None) by (vm_compute; reflexivity).
  destruct (C1_first_listed_wins l w) as (_ & Hkeep & _ & Hfirst).
  split; [exact HF1|]. split; [exact HF2|]. split; [exact Hunset|]. split.
  - apply Hkeep. vm_compute. reflexivity.
  - pose proof (Hfirst "first.env" "second.env" [] "KEY" "1" "2"
                  eq_refl HF1 HF2) as Hk.
    rewrite Hunset in Hk. exact Hk.
Defined.

(** C2 as stated fails: the second source does not exist and the skip option
    is not set, yet the error [Load] returns is the access error of the
    first source; it is not [ErrSourceNotFound] and does not name the
    missing source. *)
Lemma C2_counterexample :
  let l : Env.Loader Sample.SampleConfig :=
    Env.mkLoader ["locked.env"; "a.env"] Env.Options_zero in
  let w := Sample.world [("locked.env", Unreadable EACCES)] [] in
  Env.SkipMissingFiles (Env.Opts l) = false /\
  "a.env" ∈ Env.Files l /\
  not_exist (fs w) "a.env" /\
  (Env.Load l w).1 =
    (None, Some (Errorf "error loading env file locked.env: "
                   (Errorf "failed to load env file: "
                      (PathError "read" "locked.env" EACCES)))) /\
  ~ (exists err, (Env.Load l w).1 = (None, Some err) /\
                 errors_Is err ErrSourceNotFound = true).
Proof.
  intros l w. split; [reflexivity|]. split; [|split; [|split]].
  - apply elem_of_cons. right. apply elem_of_cons. by left.
  - vm_compute. reflexivity.
  - vm_compute. reflexivity.
  - intros (err & Hload & His). vm_compute in Hload.
    injection Hload as <-. vm_compute in His. discriminate.
Qed.

(** A missing source between two files that exist. *)
Lemma C2_missing_source_fails_witness :
  let l : Env.Loader Sample.SampleConfig :=
    Env.mkLoader ["real.env"; "a.env"; "later.env"] Env.Options_zero in
  let w := Sample.world [("real.env", Regular "APP_NAME=real");
                         ("later.env", Regular "PORT=1")] [] in
  Env.SkipMissingFiles (Env.Opts l) = false /\
  not_exist (fs w) "a.env" /\
  (Env.Load l w).1 =
    (None, Some (Errorf "error loading env file a.env: " ErrSourceNotFound)) /\
  environ (Env.Load l w).2 !! "PORT" = None.
Proof.
  intros l w.
  assert (Hmiss : not_exist (fs w) "a.env") by (vm_compute; reflexivity).
  destruct (C2_missing_source_fails l w ["real.env"] "a.env" ["later.env"]
              eq_refl eq_refl Hmiss) as [_ Hreached].
  split; [reflexivity|]. split; [exact Hmiss|].
  rewrite (Hreached (Env.Load_files l ["real.env"] w).2).
  - split; [reflexivity|]. vm_compute. reflexivity.
  - vm_compute. reflexivity.
Defined.

(** A missing source and an unreadable one, each before a file that exists,
    with the skip option set. *)
Lemma C3_only_not_found_is_skipped_witness :
  let o := options true "" in
  let skipping : Env.Loader Sample.SampleConfig :=
    Env.mkLoader ["missing.env"; "real.env"] o in
  let blocked : Env.Loader Sample.SampleConfig :=
    Env.mkLoader ["locked.env"; "real.env"] o in
  let w := Sample.world [("real.env", Regular Sample.skippy_env);
                         ("locked.env", Unreadable EACCES)] [] in
  not_exist (fs w) "missing.env" /\
  access_error (fs w) "locked.env" (PathError "read" "locked.env" EACCES) /\
  Env.Load skipping w =
    Env.Load (Env.mkLoader ["real.env"] o) (log (CallStat "missing.env") w) /\
  (Env.Load skipping w).1 = (Some (Sample.mkSampleConfig "skippy" 3000), None) /\
  (Env.Load blocked w).1 =
    (None, Some (Errorf "error loading env file locked.env: "
                   (Errorf "failed to load env file: "
                      (PathError "read" "locked.env" EACCES)))).
Proof.
  intros o skipping blocked w.
  assert (Hmiss : not_exist (fs w) "missing.env") by (vm_compute; reflexivity).
  assert (Hacc : access_error (fs w) "locked.env"
                   (PathError "read" "locked.env" EACCES)).
  { split; vm_compute; reflexivity. }
  destruct (C3_only_not_found_is_skipped skipping w [] "missing.env" ["real.env"]
              eq_refl) as [Hskip _].
  destruct (C3_only_not_found_is_skipped blocked w [] "locked.env" ["real.env"]
              eq_refl) as [_ Hfail].
  destruct (Hskip eq_refl Hmiss) as [_ Hnext].
  destruct (Hfail _ Hacc) as [_ Hreached].
  split; [exact Hmiss|]. split; [exact Hacc|]. split; [|split].
  - apply (Hnext w eq_refl).
  - rewrite (Hnext w eq_refl). vm_compute. reflexivity.
  - rewrite (Hreached w eq_refl). reflexivity.
Defined.

(** C4 as stated fails: the source list is not empty, yet [NewLoader]
    returns no loader, because an option returned an error. *)
Lemma C4_counterexample :
  ["a.env"] <> ([] : list string) /\
  Env.NewLoader Sample.SampleConfig ["a.env"] [Sample.refuse] =
    (None, Some (Errorf "error creating loader: invalid option: "
                   (ForeignError "app" "option refused"))).
Proof. split; [discriminate|reflexivity]. Qed.

(** No sources, and the two sources of the README. *)
Lemma C4_empty_source_list_rejected_witness :
  Env.NewLoader Sample.SampleConfig [] [Env.WithSkipMissingFiles] =
    (None, Some ErrEnvFilesNotSpecified) /\
  Env.NewLoader Sample.SampleConfig [".env"; ".env.local"]
    [Env.WithSkipMissingFiles] =
    (Some (Env.mkLoader [".env"; ".env.local"]
             (options true "")), None).
Proof.
  destruct (@C4_empty_source_list_rejected Sample.libraries Sample.SampleConfig)
    as (Hempty & Hready & _).
  split.
  - apply Hempty.
  - apply Hready; [discriminate|reflexivity].
Defined.

(** A malformed file between two well-formed ones. *)
Lemma C5_first_failure_aborts_witness :
  let l : Env.Loader Sample.SampleConfig :=
    Env.mkLoader ["a.env"; "bad.env"; "c.env"] Env.Options_zero in
  let w := Sample.world [("a.env", Regular "APP_NAME=a");
                         ("bad.env", Regular "PORT");
                         ("c.env", Regular "PORT=1")] [] in
  let e := Errorf "failed to load env file: "
             (ForeignError "godotenv"
                "unexpected character in variable name near PORT") in
  (Env.Load l w).1 = (None, Some (Errorf "error loading env file bad.env: " e)) /\
  environ (Env.Load l w).2 !! "APP_NAME" = Some "a" /\
  environ (Env.Load l w).2 !! "PORT" = None /\
  (CallEnvParse ∉ calls (Env.Load l w).2) /\
  (CallStat "c.env" ∉ calls (Env.Load l w).2).
Proof.
  intros l w e.
  set (w1 := (Env.Load_files l ["a.env"] w).2).
  set (w2 := (Env.loadEnvFile l "bad.env" w1).2).
  destruct (C5_first_failure_aborts l w ["a.env"] "bad.env" ["c.env"] w1 e w2)
    as (Hload & Henv & new & Hcalls & Hnew).
  - reflexivity.
  - vm_compute. reflexivity.
  - vm_compute. reflexivity.
  - reflexivity.
  - rewrite Hload. simpl. split; [reflexivity|]. split; [|split; [|split]].
    + vm_compute. reflexivity.
    + vm_compute. reflexivity.
    + rewrite Hcalls. intros [Hin|Hin]%elem_of_app.
      * by apply (proj1 (Forall_forall _ _) Hnew) in Hin.
      * vm_compute in Hin. by apply elem_of_nil in Hin.
    + rewrite Hcalls. intros [Hin|Hin]%elem_of_app.
      * apply (proj1 (Forall_forall _ _) Hnew) in Hin. simpl in Hin.
        apply elem_of_cons in Hin as [Hin|Hin]; [discriminate|].
        apply elem_of_cons in Hin as [Hin|Hin]; [discriminate|].
        by apply elem_of_nil in Hin.
      * vm_compute in Hin. by apply elem_of_nil in Hin.
Defined.

(** Two pass-through options after the skip option. *)
Lemma C8_later_option_wins_witness :
  Env.NewLoader Sample.SampleConfig [".env"]
    [Env.WithSkipMissingFiles;
     WithPrefix "A_";
     WithPrefix "B_"] =
  (Some (Env.mkLoader [".env"] (options true "B_")),
   None).
Proof.
  destruct (@C8_later_option_wins Sample.libraries Sample.SampleConfig [".env"]
              [Env.WithSkipMissingFiles]
              (options true "")
              (Sample.mkOptions "A_") (Sample.mkOptions "B_"))
    as (Htwo & _).
  - discriminate.
  - reflexivity.
  - exact Htwo.
Defined.

(** An option that refuses, between two that apply. *)
Lemma C10_failing_option_aborts_witness :
  Env.NewLoader Sample.SampleConfig [".env"]
    [Env.WithSkipMissingFiles; Sample.refuse;
     WithPrefix "B_"] =
  (None, Some (Errorf "error creating loader: invalid option: "
                 (ForeignError "app" "option refused"))).
Proof.
  apply (@C10_failing_option_aborts Sample.libraries Sample.SampleConfig [".env"]
           [Env.WithSkipMissingFiles]
           [WithPrefix "B_"] Sample.refuse
           (options true "")
           (options true "")).
  - discriminate.
  - reflexivity.
  - reflexivity.
Defined.

(** ** The test table of env_test.go

    The five cases of [TestLoader], run on the revision the test file was
    written for: its options are [LoaderOption]s and its binding error reads
    "error parsing env vars".  The file the test writes to a temporary
    directory is [/tmp/.env] here; it is put before the listed files. *)

Example TestLoader_valid_env_file :
  let w := Sample.world [("/tmp/.env", Regular Sample.valid_env)] [] in
  exists l,
    EnvRev0.NewLoader Sample.SampleConfig ["/tmp/.env"] [] = (Some l, None) /\
    (@goconfig.NewConfig _ _ _ EnvRev0.Load l w).1 =
      (Some (Sample.mkSampleConfig "testapp" 8080), None).
Proof. eexists. split; [reflexivity|]. vm_compute. reflexivity. Qed.

Example TestLoader_missing_env_file_error :
  let w := Sample.world [] [] in
  exists l err,
    EnvRev0.NewLoader Sample.SampleConfig ["nonexistent.env"] [] = (Some l, None) /\
    (@goconfig.NewConfig _ _ _ EnvRev0.Load l w).1 = (None, Some err) /\
    Sample.Contains (Error err) "error loading env file" = true.
Proof.
  eexists. eexists. split; [reflexivity|]. split; vm_compute; reflexivity.
Qed.

Example TestLoader_skip_missing_env_files :
  let w := Sample.world [("/tmp/.env", Regular Sample.skippy_env)] [] in
  exists l,
    EnvRev0.NewLoader Sample.SampleConfig ["/tmp/.env"; "missing.env"]
      [EnvRev1.WithSkipMissingFiles] = (Some l, None) /\
    (@goconfig.NewConfig _ _ _ EnvRev0.Load l w).1 =
      (Some (Sample.mkSampleConfig "skippy" 3000), None).
Proof. eexists. split; [reflexivity|]. vm_compute. reflexivity. Qed.

Example TestLoader_no_env_files :
  exists err,
    EnvRev0.NewLoader Sample.SampleConfig [] [] = (None, Some err) /\
    Sample.Contains (Error err) (Error ErrEnvFilesNotSpecified) = true.
Proof. eexists. split; [reflexivity|]. vm_compute. reflexivity. Qed.

Example TestLoader_invalid_env_values :
  let w := Sample.world [("/tmp/.env", Regular "PORT=notanumber")] [] in
  exists l err,
    EnvRev0.NewLoader Sample.SampleConfig ["/tmp/.env"] [] = (Some l, None) /\
    (@goconfig.NewConfig _ _ _ EnvRev0.Load l w).1 = (None, Some err) /\
    Sample.Contains (Error err) "parsing env vars" = true.
Proof.
  eexists. eexists. split; [reflexivity|]. split; vm_compute; reflexivity.
Qed.

(** Testable property 3 of the specification on the current revision. *)
Example skip_missing_then_real :
  let w := Sample.world [("real.env", Regular "APP_NAME=skippy
PORT=3000")] [] in
  exists l,
    Env.NewLoader Sample.SampleConfig ["missing.env"; "real.env"]
      [Env.WithSkipMissingFiles] = (Some l, None) /\
    (goconfig.NewConfig l w).1 =
      (Some (Sample.mkSampleConfig "skippy" 3000), None).
Proof. eexists. split; [reflexivity|]. vm_compute. reflexivity. Qed.

(** ** Concrete runs of the further properties *)


(** Two files, taken one after the other. *)
Lemma Load_concat_witness :
  let l : Env.Loader Sample.SampleConfig :=
    Env.mkLoader ["a.env"; "b.env"] Env.Options_zero in
  let w := Sample.world [("a.env", Regular "APP_NAME=a");
                         ("b.env", Regular "PORT=1")] [] in
  Env.Load l w =
  Env.Load (Env.mkLoader ["b.env"] Env.Options_zero)
    (Env.Load_files l ["a.env"] w).2.
Proof.
  intros l w.
  refine (eq_trans (Load_concat l ["a.env"] ["b.env"] w eq_refl) _).
  vm_compute. reflexivity.
Defined.

(** A missing source without the skip option: [errors.Is] finds the
    sentinel. *)
Lemma Load_error_Is_ErrSourceNotFound_witness :
  let l : Env.Loader Sample.SampleConfig :=
    Env.mkLoader ["missing.env"] Env.Options_zero in
  let w := Sample.world [] [] in
  let err := Errorf "error loading env file missing.env: " ErrSourceNotFound in
  (Env.Load l w).1 = (None, Some err) /\
  errors_Is err ErrSourceNotFound = true.
Proof.
  intros l w err.
  assert (Hfail : (Env.Load l w).1 = (None, Some err)) by (vm_compute; reflexivity).
  split; [exact Hfail|].
  apply (proj2 (Load_error_Is_ErrSourceNotFound l w err Hfail)).
  split; [reflexivity|].
  exists [], "missing.env", [], w.
  split; [reflexivity|]. split; [reflexivity|]. vm_compute. reflexivity.
Defined.

(** A malformed file: the message is of the second kind. *)
Lemma Load_error_messages_witness :
  let l : Env.Loader Sample.SampleConfig :=
    Env.mkLoader ["bad.env"] Env.Options_zero in
  let w := Sample.world [("bad.env", Regular "PORT")] [] in
  let err :=
    Errorf "error loading env file bad.env: "
      (Errorf "failed to load env file: "
         (ForeignError "godotenv"
            "unexpected character in variable name near PORT")) in
  (Env.Load l w).1 = (None, Some err) /\
  ((exists path, path ∈ Env.Files l /\
      Error err = ("error loading env file " +:+ path +:+ ": ")
                  +:+ "source not found") \/
   (exists path e, path ∈ Env.Files l /\
      Error err = ("error loading env file " +:+ path +:+ ": ")
                  +:+ ("failed to load env file: " +:+ Error e)) \/
   (exists msg,
      Error err = "error parsing env variables into struct: " +:+ msg)).
Proof.
  intros l w err.
  assert (Hfail : (Env.Load l w).1 = (None, Some err)) by (vm_compute; reflexivity).
  split; [exact Hfail|].
  exact (Load_error_messages l w err Hfail).
Defined.

(** Two listed sources, neither of which exists, with the skip option: the
    ambient environment is bound as it is. *)
Lemma Load_nothing_to_load_witness :
  let l : Env.Loader Sample.SampleConfig :=
    Env.mkLoader [".env"; ".env.local"] (options true "") in
  let w := Sample.world [] [("APP_NAME", "ambient"); ("PORT", "80")] in
  Forall (not_exist (fs w)) (Env.Files l) /\
  environ (Env.Load l w).2 = environ w /\
  (Env.Load l w).1 = (Some (Sample.mkSampleConfig "ambient" 80), None).
Proof.
  intros l w.
  assert (Hmiss : Forall (not_exist (fs w)) (Env.Files l)).
  { repeat constructor. }
  destruct (Load_nothing_to_load l w (or_introl eq_refl) Hmiss)
    as (Henv & _ & Hresult).
  split; [exact Hmiss|]. split; [exact Henv|].
  rewrite Hresult. vm_compute. reflexivity.
Defined.

(** The file of the first test case and the two keys the tests clear. *)
Lemma clearEnvironmentVariables_after_Load_witness :
  let l : Env.Loader Sample.SampleConfig :=
    Env.mkLoader ["/tmp/.env"] Env.Options_zero in
  let w := Sample.world [("/tmp/.env", Regular Sample.valid_env)]
                        [("HOME", "/root")] in
  environ (Env.Load l w).2 !! "PORT" = Some "8080" /\
  environ (clearEnvironmentVariables ["APP_NAME"; "PORT"] (Env.Load l w).2)
  = environ w.
Proof.
  intros l w. split; [vm_compute; reflexivity|].
  assert (Hprov : provided (fs w) (Env.Files l) =
                  [("APP_NAME", "testapp"); ("PORT", "8080")])
    by (vm_compute; reflexivity).
  apply (clearEnvironmentVariables_after_Load l w ["APP_NAME"; "PORT"]).
  - intros kv Hin. rewrite Hprov in Hin.
    apply elem_of_cons in Hin as [->|Hin]; [apply elem_of_cons; by left|].
    apply elem_of_cons in Hin as [->|Hin]; [|by apply elem_of_nil in Hin].
    apply elem_of_cons. right. apply elem_of_cons. by left.
  - intros k Hin.
    apply elem_of_cons in Hin as [->|Hin]; [vm_compute; reflexivity|].
    apply elem_of_cons in Hin as [->|Hin]; [vm_compute; reflexivity|].
    by apply elem_of_nil in Hin.
Defined.

(** Four options of the package: the skip option twice, and two values for
    the binder's options. *)
Lemma NewLoader_option_calls_witness :
  Env.NewLoader Sample.SampleConfig [".env"]
    [WithPrefix "A_"; Env.WithSkipMissingFiles; WithPrefix "B_";
     Env.WithSkipMissingFiles] =
  (Some (Env.mkLoader [".env"] (options true "B_")), None).
Proof.
  refine (@NewLoader_option_calls Sample.libraries Sample.SampleConfig [".env"]
            [@CallWithEnvOptions Sample.libraries (Sample.mkOptions "A_");
             CallWithSkipMissingFiles;
             @CallWithEnvOptions Sample.libraries (Sample.mkOptions "B_");
             CallWithSkipMissingFiles] _).
  discriminate.
Defined.

(** A missing source after a file that exists, in the first revision. *)
Lemma Rev0_missing_source_witness :
  let l : EnvRev1.Loader Sample.SampleConfig :=
    EnvRev1.mkLoader ["real.env"; "a.env"] false in
  let w := Sample.world [("real.env", Regular "APP_NAME=real")] [] in
  not_exist (fs w) "a.env" /\
  (EnvRev0.Load l w).1 =
    (None, Some (Errorf "error loading env file a.env: "
                   (PathError "stat" "a.env" ENOENT))).
Proof.
  intros l w.
  assert (Hmiss : not_exist (fs w) "a.env") by (vm_compute; reflexivity).
  split; [exact Hmiss|].
  destruct (Rev0_missing_source l w ["real.env"] "a.env" []
              (EnvRev0.Load_files l ["real.env"] w).2 eq_refl eq_refl)
    as [Hload _].
  - vm_compute. reflexivity.
  - vm_compute. reflexivity.
  - rewrite Hload. reflexivity.
Defined.

(** The option of the earlier revision given twice. *)
Lemma Rev1_NewLoader_outcomes_witness :
  EnvRev1.NewLoader Sample.SampleConfig [".env"]
    [EnvRev1.WithSkipMissingFiles; EnvRev1.WithSkipMissingFiles] =
    (Some (EnvRev1.mkLoader [".env"] true), None) /\
  Env.NewLoader Sample.SampleConfig [".env"]
    [Env.WithSkipMissingFiles; Env.WithSkipMissingFiles] =
    (Some (Env.mkLoader [".env"] (options true "")), None).
Proof.
  destruct (@Rev1_NewLoader_outcomes Sample.libraries Sample.SampleConfig [".env"])
    as (_ & _ & Hskip).
  destruct (Hskip 2) as [Hold Hnew]; [discriminate|].
  split; [exact Hold|exact Hnew].
Defined.

(** A file that cannot be loaded before one that could: the second is not
    even tested for existence. *)
Lemma Load_call_order_witness :
  let l : Env.Loader Sample.SampleConfig :=
    Env.mkLoader ["locked.env"; "c.env"] Env.Options_zero in
  let w := Sample.world [("locked.env", Unreadable EACCES);
                         ("c.env", Regular "PORT=1")] [] in
  (CallStat "locked.env" ∈ calls (Env.Load l w).2) /\
  (CallStat "c.env" ∉ calls (Env.Load l w).2) /\
  (CallEnvParse ∉ calls (Env.Load l w).2).
Proof.
  intros l w.
  destruct (Load_call_order l w) as (new & Hcalls & _ & _ & _ & Horder).
  assert (Hrun : (Env.Load_files l (Env.Files l) w).1 =
                 Some (Errorf "error loading env file locked.env: "
                         (Errorf "failed to load env file: "
                            (PathError "read" "locked.env" EACCES))))
    by (vm_compute; reflexivity).
  rewrite Hrun in Horder.
  destruct Horder as (Hno & pre & path & post & Hfiles & Hpre & _ & Hstat).
  assert (Hnil : pre = []).
  { destruct pre as [|p0 pre]; [reflexivity|]. exfalso.
    injection Hfiles as <- _. apply Forall_cons in Hpre as [Hp _].
    vm_compute in Hp. exact Hp. }
  subst pre. injection Hfiles as <- _.
  assert (Hlog : calls (Env.Load l w).2 = new).
  { rewrite Hcalls. apply (right_id_L [] app). }
  rewrite Hlog. split; [|split].
  - rewrite <- Hlog.
    assert (Hc : calls (Env.Load l w).2 =
                 [CallDotenvLoad "locked.env"; CallStat "locked.env"])
      by (vm_compute; reflexivity).
    rewrite Hc. apply elem_of_cons. right. apply elem_of_cons. by left.
  - intros Hin.
    assert (Hpath : "c.env" ∈ stat_paths new).
    { apply list_elem_of_omap. by exists (CallStat "c.env"). }
    apply (f_equal (@rev string)) in Hstat.
    rewrite rev_involutive in Hstat. simpl in Hstat.
    rewrite Hstat in Hpath.
    apply elem_of_cons in Hpath as [Heq|Hpath]; [discriminate|].
    by apply elem_of_nil in Hpath.
  - exact Hno.
Defined.
